(** * bert_finetuner_splitset: dataset split, label vectors, early stopping

    A shallow embedding of [bert_finetuner_splitset.py].  The script reads a
    CSV of (label, article) rows, derives the label list, splits the rows
    three ways, exports the partitions, turns labels into one-hot
    dictionaries, and runs a training loop that stops on a patience rule.

    Conventions of the embedding:
    - a dataframe is the list of its rows, in row order;
    - a Python [dict] is an association list in insertion order, since the
      script iterates over dictionaries ([items()]) and the order is visible;
    - Python [float] scores and probabilities are exact rationals ([Q]);
    - Python [int] counters are [Z], with [//] as [Z.div];
    - an uncaught Python exception is [None];
    - the framework (the model update, the prediction, the splitter of
      scikit-learn) is a parameter of the functions that call it. *)

From Stdlib Require Import List String Ascii ZArith QArith Qround Lia Lqa Bool.
From Stdlib Require Import Permutation Sorting.Sorted.
Import ListNotations.

Local Open Scope string_scope.
Local Open Scope list_scope.

(** ** Data model *)

Definition Label := string.
Definition Text := string.

(** A row of the dataframe, [names=['label', 'article']]. *)
Definition Row := (Label * Text)%type.
Definition label (r : Row) : Label := fst r.
Definition article (r : Row) : Text := snd r.

Definition DataFrame := list Row.

(** [df.itertuples(index=False, name=None)] *)
Definition itertuples (df : DataFrame) : list (Label * Text) := df.

(** ** Python dictionaries, in insertion order *)

Module Dict.

Definition t (V : Type) := list (string * V).

Definition empty {V} : t V := [].

Fixpoint get {V} (k : string) (d : t V) : option V :=
  match d with
  | [] => None
  | (k', v) :: d' => if String.eqb k k' then Some v else get k d'
  end.

(** [k in d] *)
Definition mem {V} (k : string) (d : t V) : bool :=
  match get k d with Some _ => true | None => false end.

(** [d[k] = v]: an existing key keeps its position, a new one goes last. *)
Fixpoint set {V} (k : string) (v : V) (d : t V) : t V :=
  match d with
  | [] => [(k, v)]
  | (k', v') :: d' =>
      if String.eqb k k' then (k', v) :: d' else (k', v') :: set k v d'
  end.

(** In-place change of the value stored under [k] (as [d[k].append(x)]). *)
Fixpoint update {V} (k : string) (f : V -> V) (d : t V) : t V :=
  match d with
  | [] => []
  | (k', v') :: d' =>
      if String.eqb k k' then (k', f v') :: d' else (k', v') :: update k f d'
  end.

Definition keys {V} (d : t V) : list string := map fst d.
Definition values {V} (d : t V) : list V := map snd d.
Definition items {V} (d : t V) : list (string * V) := d.

End Dict.

(** ** pandas [Series.unique()]: distinct values in order of first appearance *)

Definition mem_str (x : string) (xs : list string) : bool :=
  existsb (String.eqb x) xs.

Definition unique_step (acc : list string) (x : string) : list string :=
  if mem_str x acc then acc else acc ++ [x].

Definition unique (xs : list string) : list string :=
  fold_left unique_step xs [].

(** [df['label']] *)
Definition label_column (df : DataFrame) : list Label := map label df.

(** [train_label_list = df_train_set['label'].unique().tolist()] *)
Definition train_label_list (df_train_set : DataFrame) : list Label :=
  unique (label_column df_train_set).

(** ** LabelVectorizer: [_prepare_partition] *)

(** A CatDistribution. *)
Definition Cats := Dict.t Q.

(** [{str(i): 1.0 if i == y else 0.0 for i in label_list}] *)
Definition one_hot (label_list : list Label) (y : Label) : Cats :=
  fold_left
    (fun d i => Dict.set i (if String.eqb i y then 1%Q else 0%Q) d)
    label_list Dict.empty.

(** The transposition [zip] of the unpacked two-column rows; on no row at all
    the unpacking into two names raises. *)
Definition unzip_rows (rows : list (Label * Text))
  : option (list Label * list Text) :=
  match rows with
  | [] => None
  | _ => Some (map fst rows, map snd rows)
  end.

(** [_prepare_partition(text_label_tuples, preprocess=False, label_list)].
    Every caller passes [preprocess=False], so [preprocess_text] is never
    run; it is taken as a parameter. *)
Definition _prepare_partition (preprocess_text : Text -> Text)
    (text_label_tuples : list (Label * Text)) (preprocess : bool)
    (label_list : list Label) : option (list Text * list Cats) :=
  match unzip_rows text_label_tuples with
  | None => None
  | Some (labels, texts) =>
      let texts := if preprocess then map preprocess_text texts else texts in
      let cats := map (fun y => one_hot label_list y) labels in
      Some (texts, cats)
  end.

(** [load_data(train_dataframe, eval_dataframe, label_list)] *)
Definition load_data (preprocess_text : Text -> Text)
    (train_dataframe eval_dataframe : DataFrame) (label_list : list Label)
  : option ((list Text * list Cats) * (list Text * list Cats)) :=
  let train_data := itertuples train_dataframe in
  let dev_data := itertuples eval_dataframe in
  match _prepare_partition preprocess_text train_data false label_list with
  | None => None
  | Some tr =>
      match _prepare_partition preprocess_text dev_data false label_list with
      | None => None
      | Some dv => Some (tr, dv)
      end
  end.

(** ** Markdown export *)

Definition newline : string := String (ascii_of_nat 10) EmptyString.

(** What the script stores in a file: [json.dump] of the rows, [json.dump] of
    the label list, or the text written to a Markdown file. *)
Inductive FileData : Type :=
| JsonRows (rows : list (Label * Text))
| JsonLabels (labels : list Label)
| Markdown (text : string).

(** The files under [data/], by name; [open(name, 'w')] replaces the entry.
    The directory [output_dir] and what [nlp.to_disk] writes into it are not
    part of it. *)
Definition FileSystem := Dict.t FileData.

(** The body of the [iterrows] loop: a label met for the first time gets an
    empty list, then the article is appended to the label's list. *)
Definition add_sample (label_samples : Dict.t (list Text)) (entry : Row)
  : Dict.t (list Text) :=
  if negb (Dict.mem (label entry) label_samples) then
    Dict.update (label entry) (fun l => l ++ [article entry])
      (Dict.set (label entry) [] label_samples)
  else
    Dict.update (label entry) (fun l => l ++ [article entry]) label_samples.

(** [for article in articles: file.write('- ' + article + '\n')] *)
Definition write_articles (file : string) (articles : list Text) : string :=
  fold_left (fun file article => (file ++ ("- " ++ article ++ newline))%string)
    articles file.

(** [for label, articles in label_samples.items(): ...] *)
Definition write_label_samples (file : string)
    (label_samples : Dict.t (list Text)) : string :=
  fold_left
    (fun file la =>
       write_articles (file ++ ("## intent:" ++ fst la ++ newline))%string
         (snd la))
    (Dict.items label_samples) file.

Definition create_rasa_training_set (df_train_set : DataFrame)
    (fs : FileSystem) : FileSystem :=
  let label_samples := fold_left add_sample df_train_set Dict.empty in
  let file := write_label_samples EmptyString label_samples in
  Dict.set "data/train.md" (Markdown file) fs.

Definition create_rasa_dev_set (df_dev_set : DataFrame)
    (fs : FileSystem) : FileSystem :=
  let label_samples := fold_left add_sample df_dev_set Dict.empty in
  let file := write_label_samples EmptyString label_samples in
  Dict.set "data/dev.md" (Markdown file) fs.

Definition create_rasa_test_set (df_test_set : DataFrame)
    (fs : FileSystem) : FileSystem :=
  let label_samples := fold_left add_sample df_test_set Dict.empty in
  let file := write_label_samples EmptyString label_samples in
  Dict.set "data/test.md" (Markdown file) fs.

(** ** Evaluator *)

(** [np.argmax]: the index of the first occurrence of the maximum; an empty
    sequence raises. [best_i] and [best] are the running maximum, [i] the
    index of the head of [probs]. *)
Fixpoint argmax_from (best_i : nat) (best : Q) (i : nat) (probs : list Q)
  : nat :=
  match probs with
  | [] => best_i
  | p :: probs' =>
      if Qle_bool p best then argmax_from best_i best (S i) probs'
      else argmax_from i p (S i) probs'
  end.

Definition np_argmax (probs : list Q) : option nat :=
  match probs with
  | [] => None
  | p :: probs' => Some (argmax_from 0 p 1 probs')
  end.

Definition find_max_prob_cat (cats_probs : Cats) : option Label :=
  match Dict.items cats_probs with
  | [] => None
  | _ =>
      let cats := Dict.keys cats_probs in
      let probs := Dict.values cats_probs in
      match np_argmax probs with
      | None => None
      | Some idx => nth_error cats idx
      end
  end.

Record Scores : Type := {
  textcat_acc : Q;
  textcat_cor : Z;
  textcat_wrg : Z
}.

(** The loop over [enumerate(nlp.pipe(texts))]: [nlp_cats text] is [doc.cats]
    of the document the pipeline makes of [text]; [i] is the index of the
    head of [texts]. *)
Fixpoint count_correct (nlp_cats : Text -> Cats) (cats : list Cats)
    (i : nat) (texts : list Text) (correct : Z) : option Z :=
  match texts with
  | [] => Some correct
  | text :: texts' =>
      match nth_error cats i with
      | None => None
      | Some cats_i =>
          match find_max_prob_cat cats_i with
          | None => None
          | Some true_label =>
              match find_max_prob_cat (nlp_cats text) with
              | None => None
              | Some pred_label =>
                  count_correct nlp_cats cats (S i) texts'
                    (if String.eqb true_label pred_label
                     then correct + 1 else correct)%Z
              end
          end
      end
  end.

Definition len {A} (l : list A) : Z := Z.of_nat (List.length l).

Definition evaluate_multiclass (nlp_cats : Text -> Cats) (texts : list Text)
    (cats : list Cats) : option Scores :=
  match count_correct nlp_cats cats 0 texts 0%Z with
  | None => None
  | Some correct =>
      if (len texts =? 0)%Z then None
      else Some {| textcat_acc := inject_Z correct / inject_Z (len texts);
                   textcat_cor := correct;
                   textcat_wrg := len texts - correct |}
  end.

(** ** Checkpoint results and their order *)

(** [(scores["textcat_acc"], step, epoch)] *)
Definition CheckpointResult := (Q * Z * Z)%type.

Definition cr_score (c : CheckpointResult) : Q := fst (fst c).
Definition cr_step (c : CheckpointResult) : Z := snd (fst c).
Definition cr_epoch (c : CheckpointResult) : Z := snd c.

(** Python compares tuples item by item: the first pair of unequal items
    decides. *)
Definition tuple_compare (a b : CheckpointResult) : comparison :=
  match (cr_score a ?= cr_score b)%Q with
  | Eq =>
      match (cr_step a ?= cr_step b)%Z with
      | Eq => (cr_epoch a ?= cr_epoch b)%Z
      | c => c
      end
  | c => c
  end.

Definition tuple_gt (a b : CheckpointResult) : bool :=
  match tuple_compare a b with Gt => true | _ => false end.

Definition tuple_lt (a b : CheckpointResult) : bool :=
  match tuple_compare a b with Lt => true | _ => false end.

(** [max(results)]: the running maximum is replaced by an item only when the
    item is greater; an empty list raises. *)
Definition py_max (results : list CheckpointResult)
  : option CheckpointResult :=
  match results with
  | [] => None
  | r :: results' =>
      Some (fold_left (fun m item => if tuple_gt item m then item else m)
              results' r)
  end.

(** [sorted(results, reverse=True)]: descending, and stable (items that
    compare equal keep their order). *)
Fixpoint insert_reverse (x : CheckpointResult) (l : list CheckpointResult)
  : list CheckpointResult :=
  match l with
  | [] => [x]
  | y :: l' => if tuple_lt x y then y :: insert_reverse x l' else x :: y :: l'
  end.

Fixpoint sorted_reverse (l : list CheckpointResult) : list CheckpointResult :=
  match l with
  | [] => []
  | x :: l' => insert_reverse x (sorted_reverse l')
  end.

(** ** Training loop *)

Definition eval_every : Z := 100.
Definition patience : Z := 3.

(** [(text, {"cats": cats})] *)
Definition Example := (Text * Cats)%type.

(** [spacy.util.minibatch(items, size)]: consecutive slices of [size] items
    until the items run out; a negative size raises. *)
Fixpoint slices {A} (fuel size : nat) (items : list A) : list (list A) :=
  match fuel with
  | O => []
  | S fuel' =>
      match firstn size items with
      | [] => []
      | batch => batch :: slices fuel' size (skipn size items)
      end
  end.

Definition minibatch {A} (items : list A) (size : Z) : option (list (list A)) :=
  if (size <? 0)%Z then None
  else Some (slices (List.length items) (Z.to_nat size) items).

(** The [for batch in batches] loop.  [nlp.update] changes the model only;
    what the model answers afterwards is in [evaluate], the result of
    [evaluate_multiclass] when called at a given step.  An exception out of
    [next(learn_rates)] or [nlp.update] themselves is not modelled. *)
Fixpoint train_batches {A} (evaluate : Z -> option Scores) (epoch : Z)
    (batches : list A) (results : list CheckpointResult) (step : Z)
  : option (list CheckpointResult * Z) :=
  match batches with
  | [] => Some (results, step)
  | _ :: batches' =>
      if negb (step =? 0)%Z && (step mod eval_every =? 0)%Z then
        match evaluate step with
        | None => None
        | Some scores =>
            train_batches evaluate epoch batches'
              (results ++ [(textcat_acc scores, step, epoch)]) (step + 1)%Z
        end
      else train_batches evaluate epoch batches' results (step + 1)%Z
  end.

(** The test after each epoch: [if results: ... max(results) ... break]. *)
Definition no_improvement (results : list CheckpointResult) (step : Z)
  : bool :=
  match results with
  | [] => false
  | _ =>
      match py_max results with
      | None => false
      | Some best =>
          (patience <=? (step - cr_step best) / eval_every)%Z
      end
  end.

Record LoopState : Type := {
  train_data : list Example;
  results : list CheckpointResult;
  epoch : Z;
  step : Z
}.

Inductive Outcome : Type :=
| Stopped (s : LoopState)   (* the loop ran into [break] *)
| Raised                    (* an exception left the loop *)
| Running (s : LoopState).  (* still looping after the epochs counted *)

(** [while True: ...], for at most [epochs] epochs.  [shuffle e] is the
    permutation [random.shuffle] applies in place at the start of epoch [e]. *)
Fixpoint training_loop (shuffle : Z -> list Example -> list Example)
    (evaluate : Z -> option Scores) (batch_size : Z)
    (epochs : nat) (s : LoopState) : Outcome :=
  match epochs with
  | O => Running s
  | S epochs' =>
      let train_data := shuffle (epoch s) (train_data s) in
      match minibatch train_data batch_size with
      | None => Raised
      | Some batches =>
          match train_batches evaluate (epoch s) batches (results s) (step s)
          with
          | None => Raised
          | Some (results, step) =>
              let s' := {| train_data := train_data; results := results;
                           epoch := epoch s + 1; step := step |} in
              if no_improvement results step then Stopped s'
              else training_loop shuffle evaluate batch_size epochs' s'
          end
      end
  end.

(** The table under "Best scoring checkpoints": a row per checkpoint, as
    [(epoch, step, score * 100)]; the two-decimal rendering of the score is
    left out. *)
Definition report (results : list CheckpointResult) : list (Z * Z * Q) :=
  map (fun c => (cr_epoch c, cr_step c, cr_score c * 100))
    (firstn 10 (sorted_reverse results)).

(** ** The script *)

(** [make_sentence_examples(nlp, texts, labels)]; [sents text] is the texts of
    the sentences the sentencizer finds in [text]. *)
Definition make_sentence_examples (sents : Text -> list Text)
    (texts : list Text) (labels : list Cats) : list Text * list Cats :=
  fold_left
    (fun acc tc =>
       fold_left (fun acc sent => (fst acc ++ [sent], snd acc ++ [snd tc]))
         (sents (fst tc)) acc)
    (combine texts labels) ([], []).

(** What the script runs against: the CSV file and the libraries it calls. *)
Record World : Type := {
  (** [pd.read_csv('data/articles.csv', ...)]; [None] when it raises *)
  read_csv : option DataFrame;
  (** [train_test_split(df, test_size=..., stratify=...)], under the seed the
      script fixes; [None] when it raises *)
  train_test_split :
    DataFrame -> Q -> list Label -> option (DataFrame * DataFrame);
  (** the sentencizer *)
  sents : Text -> list Text;
  (** [random.shuffle] at the start of an epoch *)
  shuffle : Z -> list Example -> list Example;
  (** [doc.cats] for a text, from the named model after the updates up to a
      step, trained at the given learning rate on batches of the given size
      out of the given examples *)
  nlp_cats : string -> Q -> Z -> list Example -> Z -> Text -> Cats;
  (** the body of [preprocess_text] *)
  preprocess_text : Text -> Text
}.

Record Report : Type := {
  textcat_labels : list string;         (* labels added to the pipe *)
  checkpoints : list CheckpointResult;  (* [results] when the loop stops *)
  last_step : Z;
  last_epoch : Z;
  table : list (Z * Z * Q);
  saved_to : option string              (* [nlp.to_disk(output_dir)] *)
}.

Inductive Exit : Type :=
| Finished (r : Report)
| Failed          (* an uncaught exception *)
| Unfinished.     (* the loop is still running after the epochs counted *)

Definition main (w : World) (model : string) (output_dir : option string)
    (n_iter : Z) (batch_size : Z) (learn_rate : Q) (sentence_split : bool)
    (epochs : nat) (fs : FileSystem) : FileSystem * Exit :=
  match read_csv w with
  | None => (fs, Failed)
  | Some df_train_set =>
  let train_label_list := train_label_list df_train_set in
  match train_test_split w df_train_set (4 # 10)
          (label_column df_train_set) with
  | None => (fs, Failed)
  | Some (train_dataframe, eval_dataframe_first) =>
  match train_test_split w eval_dataframe_first (5 # 10)
          (label_column eval_dataframe_first) with
  | None => (fs, Failed)
  | Some (eval_dataframe, dev_dataframe) =>
  let train_data := itertuples train_dataframe in
  let test_data := itertuples eval_dataframe in
  let dev_data := itertuples dev_dataframe in
  let fs := Dict.set "data/train.json" (JsonRows train_data) fs in
  let fs := Dict.set "data/test.json" (JsonRows test_data) fs in
  let fs := Dict.set "data/dev.json" (JsonRows dev_data) fs in
  let fs := create_rasa_training_set train_dataframe fs in
  let fs := create_rasa_test_set eval_dataframe fs in
  let fs := create_rasa_dev_set dev_dataframe fs in
  let fs := Dict.set "data/labels.json" (JsonLabels train_label_list) fs in
  (fs,
   match load_data (preprocess_text w) train_dataframe eval_dataframe
           train_label_list with
   | None => Failed
   | Some ((train_texts, train_cats), (eval_texts, eval_cats)) =>
   let '(train_texts, train_cats) :=
     if sentence_split
     then make_sentence_examples (sents w) train_texts train_cats
     else (train_texts, train_cats) in
   let train_data := combine train_texts train_cats in
   (* [2 * len(train_data) // batch_size], for the learning rates *)
   if (batch_size =? 0)%Z then Failed else
   match training_loop (shuffle w)
           (fun step =>
              evaluate_multiclass
                (nlp_cats w model learn_rate batch_size train_data step)
                eval_texts eval_cats)
           batch_size epochs
           {| train_data := train_data; results := [];
              epoch := 0; step := 0 |} with
   | Raised => Failed
   | Running _ => Unfinished
   | Stopped s =>
       Finished {| textcat_labels := train_label_list;
                   checkpoints := results s;
                   last_step := step s;
                   last_epoch := epoch s;
                   table := report (results s);
                   saved_to := output_dir |}
   end
   end)
  end end end.

(** * Vocabulary of the properties *)

(** ** Ground-truth distributions *)

Definition indicator (y i : Label) : Q :=
  if String.eqb i y then 1%Q else 0%Q.

(** The sum of the values and the number of entries equal to 1.0. *)
Definition total (c : Cats) : Q := fold_right Qplus 0%Q (Dict.values c).

Definition ones (c : Cats) : nat :=
  List.length (filter (fun p => Qeq_bool p 1) (Dict.values c)).

(** What a well-formed ground-truth distribution over [label_list] for the
    label [y] is. *)
Definition ground_truth (label_list : list Label) (y : Label) (c : Cats)
  : Prop :=
  Dict.keys c = label_list
  /\ List.length c = List.length label_list
  /\ (forall l, In l label_list ->
        Dict.get l c = Some (if String.eqb l y then 1%Q else 0%Q))
  /\ (total c == 1)%Q
  /\ ones c = 1%nat.

(** ** Splitters and sample inputs *)

(** What the script relies on from [train_test_split]: the two parts hold the
    rows of the input, each row once. *)
Definition splits_rows
    (split : DataFrame -> Q -> list Label -> option (DataFrame * DataFrame))
  : Prop :=
  forall df test_size stratify a b,
    split df test_size stratify = Some (a, b) -> Permutation df (a ++ b).


(** A splitter that cuts the rows in file order, the test part being
    [ceil(test_size * n)] rows long, and a world around it; they serve as
    concrete inputs below. *)
Definition split_in_order (df : DataFrame) (test_size : Q)
    (stratify : list Label) : option (DataFrame * DataFrame) :=
  let n_test := Qceiling (test_size * inject_Z (len df)) in
  let n_train := Z.to_nat (len df - n_test) in
  Some (firstn n_train df, skipn n_train df).

Definition sample_world (df : DataFrame) : World :=
  {| read_csv := Some df;
     train_test_split := split_in_order;
     sents := fun text => [text];
     shuffle := fun _ examples => examples;
     nlp_cats := fun _ _ _ _ _ _ => [("web", 1%Q)];
     preprocess_text := fun text => text |}.

Definition even_articles : DataFrame :=
  [("web", "t1"); ("sport", "t2"); ("web", "t3"); ("sport", "t4");
   ("web", "t5")].

(** The files [main] leaves behind once the CSV is read and split. *)
Definition exported (df tr ev dv : DataFrame) (fs : FileSystem)
  : FileSystem :=
  Dict.set "data/labels.json" (JsonLabels (train_label_list df))
    (create_rasa_dev_set dv
       (create_rasa_test_set ev
          (create_rasa_training_set tr
             (Dict.set "data/dev.json" (JsonRows dv)
                (Dict.set "data/test.json" (JsonRows ev)
                   (Dict.set "data/train.json" (JsonRows tr) fs)))))).


(** ** The Markdown document *)

(** The one routine the specification asks the three exports to collapse to:
    the Markdown of a partition, written under the given file name. *)
Definition create_rasa_set (filename : string) (df : DataFrame)
    (fs : FileSystem) : FileSystem :=
  Dict.set filename
    (Markdown
       (write_label_samples EmptyString
          (fold_left add_sample df Dict.empty)))
    fs.

Definition join (ls : list string) : string :=
  fold_right String.append EmptyString ls.

Definition header (l : Label) : string :=
  ("## intent:" ++ l ++ newline)%string.

Definition bullet (text : Text) : string :=
  ("- " ++ text ++ newline)%string.

(** The articles of the records that carry the label [l], in row order. *)
Definition articles_of (df : DataFrame) (l : Label) : list Text :=
  map article (filter (fun r => String.eqb (label r) l) df).

Definition md_section (df : DataFrame) (l : Label) : string :=
  (header l ++ join (map bullet (articles_of df l)))%string.

(** A section per distinct label, in order of first appearance. *)
Definition md_document (df : DataFrame) : string :=
  join (map (md_section df) (unique (label_column df))).

(** ** Arg-max labels and agreement *)

(** [i] is the first index at which [probs] takes its maximum. *)
Definition is_first_max (probs : list Q) (i : nat) : Prop :=
  exists p,
    nth_error probs i = Some p
    /\ (forall j q, nth_error probs j = Some q -> q <= p)%Q
    /\ (forall j q, (j < i)%nat -> nth_error probs j = Some q -> q < p)%Q.

(** [l] is the arg-max label of the distribution [c], ties going to the
    first label in the order of [c.items()]. *)
Definition first_argmax (c : Cats) (l : Label) : Prop :=
  exists i,
    is_first_max (Dict.values c) i /\ nth_error (Dict.keys c) i = Some l.

(** The number of texts on which the arg-max label of the true distribution
    and that of the predicted one agree. *)
Inductive agreements (nlp_cats : Text -> Cats)
  : list Text -> list Cats -> Z -> Prop :=
| agreements_nil : agreements nlp_cats [] [] 0%Z
| agreements_cons text texts c cats n true_label pred_label :
    first_argmax c true_label ->
    first_argmax (nlp_cats text) pred_label ->
    agreements nlp_cats texts cats n ->
    agreements nlp_cats (text :: texts) (c :: cats)
      ((if String.eqb true_label pred_label then 1 else 0) + n)%Z.

(** ** Order and ranking of checkpoints *)

(** [a] is not below [b]. *)
Definition tuple_ge (a b : CheckpointResult) : Prop :=
  tuple_compare a b <> Lt.

(** No two checkpoints of the list have the same accuracy. *)
Inductive distinct_scores : list CheckpointResult -> Prop :=
| distinct_nil : distinct_scores []
| distinct_cons a l :
    Forall (fun b => ~ (cr_score a == cr_score b)%Q) l ->
    distinct_scores l ->
    distinct_scores (a :: l).

Definition row (c : CheckpointResult) : Z * Z * Q :=
  (cr_epoch c, cr_step c, cr_score c * 100).

(** Fifteen checkpoints, one every hundred steps, two per epoch. *)
Definition fifteen_results : list CheckpointResult :=
  [(52 # 100, 100, 0); (61 # 100, 200, 0); (70 # 100, 300, 1);
   (66 # 100, 400, 1); (74 # 100, 500, 2); (81 # 100, 600, 2);
   (79 # 100, 700, 3); (85 # 100, 800, 3); (83 # 100, 900, 4);
   (88 # 100, 1000, 4); (90 # 100, 1100, 5); (87 # 100, 1200, 5);
   (86 # 100, 1300, 6); (84 # 100, 1400, 6); (82 # 100, 1500, 7)]%Z.

(** ** Runs of the training loop *)

(** An evaluation that answers with the scores of a given stream. *)
Definition stream_evaluate (scores : Z -> Scores) : Z -> option Scores :=
  fun step => Some (scores step).

(** The loop, started on [s], runs into [break] with the step counter
    at [n]. *)
Definition stops_at (shuffle : Z -> list Example -> list Example)
    (evaluate : Z -> option Scores) (batch_size : Z) (s : LoopState)
    (n : Z) : Prop :=
  exists epochs s',
    training_loop shuffle evaluate batch_size epochs s = Stopped s'
    /\ step s' = n.

Definition initial (train_data : list Example) : LoopState :=
  {| train_data := train_data; results := []; epoch := 0; step := 0 |}.

(** The state after [k] epochs: [k] times the batches of an epoch were
    stepped through, and [results] holds a checkpoint for each multiple of
    [eval_every] among the steps taken, with the accuracy of the stream. *)
Definition after_epochs (scores : Z -> Scores) (examples : list Example)
    (batches : list (list Example)) (k : Z) (s : LoopState) : Prop :=
  (0 <= k)%Z
  /\ step s = (k * len batches)%Z
  /\ epoch s = k
  /\ List.length (train_data s) = List.length examples
  /\ (forall c, In c (results s) ->
        (0 < cr_step c < step s)%Z
        /\ (cr_step c mod eval_every = 0)%Z
        /\ cr_score c = textcat_acc (scores (cr_step c)))
  /\ (forall n, (0 < n < step s)%Z -> (n mod eval_every = 0)%Z ->
        exists c, In c (results s) /\ cr_step c = n).

(** The number of epochs after which the step counter has reached 600. *)
Definition epochs_to_600 (batches : list (list Example)) : Z :=
  (599 / len batches + 1)%Z.

(** The scores of an evaluation of ten texts of which [correct] are right. *)
Definition scores_of (correct : Z) : Scores :=
  {| textcat_acc := inject_Z correct / 10;
     textcat_cor := correct;
     textcat_wrg := 10 - correct |}.

(** Five right out of ten before step 300, nine at step 300, eight from
    then on. *)
Definition peak_then_flat (step : Z) : Scores :=
  scores_of (if (step <? 300)%Z then 5
             else if (step =? 300)%Z then 9 else 8).

(** Five right out of ten before step 300, nine from step 300 on. *)
Definition plateau (step : Z) : Scores :=
  scores_of (if (step <? 300)%Z then 5 else 9).

Definition keep_order (e : Z) (examples : list Example) : list Example :=
  examples.

Definition some_examples (n : nat) : list Example :=
  repeat ("text", [("web", 1%Q)]) n.

(** ** Rows the model gets right *)

(** The arg-max label the model gives the article of a row is the label of
    the row. *)
Definition predicted_right (nlp_cats : Text -> Cats) (r : Row) : bool :=
  match find_max_prob_cat (nlp_cats (article r)) with
  | Some pred_label => String.eqb (label r) pred_label
  | None => false
  end.

Definition correct_rows (nlp_cats : Text -> Cats) (rows : DataFrame) : Z :=
  len (filter (predicted_right nlp_cats) rows).

(** ** The files of a run *)

(** The names of the files [main] writes. *)
Definition written_files : list string :=
  ["data/train.json"; "data/test.json"; "data/dev.json";
   "data/train.md"; "data/test.md"; "data/dev.md"; "data/labels.json"].

Definition no_articles : World :=
  {| read_csv := None;
     train_test_split := split_in_order;
     sents := fun text => [text];
     shuffle := fun _ examples => examples;
     nlp_cats := fun _ _ _ _ _ _ => [("web", 1%Q)];
     preprocess_text := fun text => text |}.

(** ** Checkpoints recorded between two states of the loop *)

(** A checkpoint taken at a step from [from_step] on and before [to_step],
    in an epoch from [from_epoch] on and before [to_epoch]: the step is a
    multiple of [eval_every] other than 0. *)
Definition checkpoint_between (from_step to_step from_epoch to_epoch : Z)
    (c : CheckpointResult) : Prop :=
  (from_step <= cr_step c < to_step)%Z
  /\ cr_step c <> 0%Z
  /\ (cr_step c mod eval_every = 0)%Z
  /\ (from_epoch <= cr_epoch c < to_epoch)%Z.

(** From [s] to [s'] the loop has only appended checkpoints, in the order of
    their steps, and the counters have not gone back. *)
Definition records_since (s s' : LoopState) : Prop :=
  (step s <= step s')%Z
  /\ (epoch s <= epoch s')%Z
  /\ exists new,
       results s' = results s ++ new
       /\ Forall (checkpoint_between (step s) (step s') (epoch s) (epoch s'))
            new
       /\ StronglySorted (fun a b => (cr_step a < cr_step b)%Z) new.

(** ** Sentences and their labels *)

(** Each sentence of each text, with the distribution of the text. *)
Definition sentence_pairs (sents : Text -> list Text) (texts : list Text)
    (labels : list Cats) : list (Text * Cats) :=
  flat_map (fun tc => map (fun sent => (sent, snd tc)) (sents (fst tc)))
    (combine texts labels).

(** An evaluation that raises at step 200 and follows [peak_then_flat]
    elsewhere. *)
Definition fails_at_200 (step : Z) : option Scores :=
  if (step =? 200)%Z then None else Some (peak_then_flat step).

(** * Properties *)

(** ** First-appearance order of [unique] *)

Lemma mem_str_In (x : string) (xs : list string) :
  mem_str x xs = true <-> In x xs.
Proof.
  unfold mem_str. rewrite existsb_exists. split.
  - intros [y [Hy He]]. apply String.eqb_eq in He. now subst.
  - intros H. exists x. split; [assumption | apply String.eqb_refl].
Qed.

Lemma mem_str_not_In (x : string) (xs : list string) :
  mem_str x xs = false <-> ~ In x xs.
Proof.
  rewrite <- mem_str_In. destruct (mem_str x xs); split; congruence.
Qed.

Lemma unique_snoc (xs : list string) (x : string) :
  unique (xs ++ [x]) = unique_step (unique xs) x.
Proof. unfold unique. now rewrite fold_left_app. Qed.

Lemma In_unique (xs : list string) (x : string) :
  In x (unique xs) <-> In x xs.
Proof.
  induction xs as [| y xs IH] using rev_ind.
  - reflexivity.
  - rewrite unique_snoc. unfold unique_step.
    destruct (mem_str y (unique xs)) eqn:E.
    + apply mem_str_In in E. rewrite in_app_iff, IH. simpl.
      split; [tauto |]. intros [H | [H | []]]; [assumption |].
      subst. now apply IH.
    + rewrite !in_app_iff, IH. reflexivity.
Qed.

Lemma NoDup_snoc {A} (xs : list A) (x : A) :
  NoDup (xs ++ [x]) <-> NoDup xs /\ ~ In x xs.
Proof.
  split.
  - intros H. apply NoDup_remove in H. now rewrite app_nil_r in H.
  - intros [H1 H2]. apply NoDup_app; [assumption | repeat constructor; intros [] |].
    intros a Ha [Hb | []]. now subst.
Qed.

Lemma NoDup_unique (xs : list string) : NoDup (unique xs).
Proof.
  induction xs as [| y xs IH] using rev_ind.
  - constructor.
  - rewrite unique_snoc. unfold unique_step.
    destruct (mem_str y (unique xs)) eqn:E; [assumption |].
    apply NoDup_snoc. split; [assumption |]. now apply mem_str_not_In.
Qed.

Lemma unique_NoDup (xs : list string) : NoDup xs -> unique xs = xs.
Proof.
  induction xs as [| y xs IH] using rev_ind; intros H.
  - reflexivity.
  - apply NoDup_snoc in H. destruct H as [H1 H2].
    rewrite unique_snoc, (IH H1). unfold unique_step.
    apply mem_str_not_In in H2. now rewrite H2.
Qed.

(** ** One-hot dictionaries *)

Lemma Dict_set_tabulate {V} (g : string -> V) (ks : list string) (i : string) :
  Dict.set i (g i) (map (fun k => (k, g k)) ks)
  = map (fun k => (k, g k)) (unique_step ks i).
Proof.
  unfold unique_step. induction ks as [| k ks IH]; simpl.
  - reflexivity.
  - destruct (String.eqb i k) eqn:E; simpl.
    + apply String.eqb_eq in E. now subst.
    + rewrite IH. now destruct (mem_str i ks).
Qed.

Lemma one_hot_tabulate (label_list : list Label) (y : Label) :
  one_hot label_list y
  = map (fun i => (i, indicator y i)) (unique label_list).
Proof.
  induction label_list as [| i l IH] using rev_ind.
  - reflexivity.
  - rewrite unique_snoc.
    transitivity (Dict.set i (indicator y i) (one_hot l y)).
    + unfold one_hot. now rewrite fold_left_app.
    + rewrite IH. apply (Dict_set_tabulate (indicator y)).
Qed.

Lemma indicator_absent (y : Label) (l : list Label) :
  ~ In y l ->
  (fold_right Qplus 0 (map (indicator y) l) == 0)%Q
  /\ filter (fun p => Qeq_bool p 1) (map (indicator y) l) = [].
Proof.
  induction l as [| i l IH]; simpl; intros H.
  - split; reflexivity.
  - destruct IH as [IH1 IH2]; [tauto |].
    unfold indicator at 1 3. destruct (String.eqb i y) eqn:E.
    + apply String.eqb_eq in E. tauto.
    + simpl. rewrite IH1, IH2. split; reflexivity.
Qed.

Lemma indicator_present (y : Label) (l : list Label) :
  NoDup l -> In y l ->
  (fold_right Qplus 0 (map (indicator y) l) == 1)%Q
  /\ List.length (filter (fun p => Qeq_bool p 1) (map (indicator y) l)) = 1%nat.
Proof.
  induction 1 as [| i l Hi Hl IH]; simpl; intros Hy.
  - contradiction.
  - unfold indicator at 1 3. destruct (String.eqb i y) eqn:E.
    + apply String.eqb_eq in E. subst i.
      destruct (indicator_absent y l Hi) as [H1 H2].
      simpl. rewrite H1, H2. split; reflexivity.
    + destruct Hy as [Hy | Hy]; [subst; now rewrite String.eqb_refl in E |].
      destruct (IH Hy) as [H1 H2]. simpl. rewrite H1, H2. split; reflexivity.
Qed.

Lemma get_tabulate {V} (g : string -> V) (ks : list string) (k : string) :
  In k ks -> Dict.get k (map (fun k => (k, g k)) ks) = Some (g k).
Proof.
  induction ks as [| k' ks IH]; simpl; intros H.
  - contradiction.
  - destruct (String.eqb k k') eqn:E.
    + apply String.eqb_eq in E. now subst.
    + destruct H as [H | H]; [subst; now rewrite String.eqb_refl in E |].
      now apply IH.
Qed.

Lemma get_tabulate_absent {V} (g : string -> V) (ks : list string) (k : string) :
  ~ In k ks -> Dict.get k (map (fun k => (k, g k)) ks) = None.
Proof.
  induction ks as [| k' ks IH]; simpl; intros H.
  - reflexivity.
  - destruct (String.eqb k k') eqn:E.
    + apply String.eqb_eq in E. subst. tauto.
    + apply IH. tauto.
Qed.

Lemma one_hot_ground_truth (label_list : list Label) (y : Label) :
  NoDup label_list -> In y label_list ->
  ground_truth label_list y (one_hot label_list y).
Proof.
  intros Hnd Hy. rewrite one_hot_tabulate, (unique_NoDup _ Hnd).
  unfold ground_truth, total, ones, Dict.keys, Dict.values.
  rewrite !map_map, length_map. simpl. rewrite map_id.
  destruct (indicator_present y label_list Hnd Hy) as [H1 H2].
  repeat split; try assumption.
  intros l Hl. now rewrite (get_tabulate (indicator y)).
Qed.

Lemma prepare_partition_some (pp : Text -> Text) (rows : list (Label * Text))
    (label_list : list Label) :
  rows <> [] ->
  _prepare_partition pp rows false label_list
  = Some (map snd rows, map (fun r => one_hot label_list (fst r)) rows).
Proof.
  intros H. unfold _prepare_partition, unzip_rows.
  destruct rows; [contradiction |]. now rewrite map_map.
Qed.

(** C4. For a partition with at least one record and a label list without
    repetition, [_prepare_partition] returns one distribution per record, and
    the distribution of a record whose label is in the list is dense: its
    keys are the whole label list, the record's label is at 1.0 and every
    other label at 0.0, so the values sum to 1.0 and exactly one of them
    is 1.0. *)
Theorem prepare_partition_one_hot (pp : Text -> Text)
    (rows : list (Label * Text)) (label_list : list Label) :
  NoDup label_list -> rows <> [] ->
  exists texts cats,
    _prepare_partition pp rows false label_list = Some (texts, cats)
    /\ texts = map snd rows
    /\ List.length cats = List.length rows
    /\ forall i r, nth_error rows i = Some r -> In (label r) label_list ->
         exists c, nth_error cats i = Some c
                   /\ ground_truth label_list (label r) c.
Proof.
  intros Hnd Hne. eexists. eexists.
  split; [apply prepare_partition_some; assumption |].
  split; [reflexivity |]. split; [apply length_map |].
  intros i r Hr Hin. exists (one_hot label_list (label r)).
  split.
  - now rewrite nth_error_map, Hr.
  - now apply one_hot_ground_truth.
Qed.

Lemma prepare_partition_one_hot_witness :
  exists texts cats,
    _prepare_partition (fun t => t) [("sport", "x"); ("web", "y")] false
      ["sport"; "web"] = Some (texts, cats)
    /\ texts = map snd [("sport", "x"); ("web", "y")]
    /\ List.length cats = List.length [("sport", "x"); ("web", "y")]
    /\ forall i r,
         nth_error [("sport", "x"); ("web", "y")] i = Some r ->
         In (label r) ["sport"; "web"] ->
         exists c, nth_error cats i = Some c
                   /\ ground_truth ["sport"; "web"] (label r) c.
Proof.
  apply (prepare_partition_one_hot (fun t => t)).
  - repeat constructor; simpl; intuition discriminate.
  - discriminate.
Defined.

(** ** The label list and the partitions *)

Lemma label_in_list (df : DataFrame) (r : Row) :
  In r df -> In (label r) (train_label_list df).
Proof.
  intros H. apply In_unique. unfold label_column. now apply in_map.
Qed.

Lemma prepare_partition_covered (pp : Text -> Text) (df part : DataFrame) :
  incl part df -> part <> [] ->
  exists texts cats,
    _prepare_partition pp (itertuples part) false (train_label_list df)
    = Some (texts, cats)
    /\ Forall2 (fun r c => ground_truth (train_label_list df) (label r) c)
         part cats.
Proof.
  intros Hincl Hne. eexists. eexists.
  split; [apply prepare_partition_some; assumption |].
  unfold itertuples. clear Hne.
  induction part as [| r part IH]; simpl; constructor.
  - apply one_hot_ground_truth; [apply NoDup_unique |].
    apply label_in_list, Hincl. now left.
  - apply IH. intros x Hx. apply Hincl. now right.
Qed.

Lemma get_set_same {V} (k : string) (v : V) (d : Dict.t V) :
  Dict.get k (Dict.set k v d) = Some v.
Proof.
  induction d as [| [k' v'] d IH]; simpl.
  - now rewrite String.eqb_refl.
  - destruct (String.eqb k k') eqn:E; simpl; now rewrite E.
Qed.

Lemma get_set_other {V} (k k' : string) (v : V) (d : Dict.t V) :
  String.eqb k k' = false ->
  Dict.get k (Dict.set k' v d) = Dict.get k d.
Proof.
  intros Hk. induction d as [| [k2 v2] d IH]; simpl.
  - now rewrite Hk.
  - destruct (String.eqb k' k2) eqn:E; simpl.
    + apply String.eqb_eq in E. subst k2. now rewrite Hk.
    + now rewrite IH.
Qed.

Lemma split_in_order_splits_rows : splits_rows split_in_order.
Proof.
  intros df q st a b H. unfold split_in_order in H.
  injection H as <- <-. now rewrite firstn_skipn.
Defined.

Lemma ground_truth_ones (label_list : list Label) (part : DataFrame)
    (cats : list Cats) :
  Forall2 (fun r c => ground_truth label_list (label r) c) part cats ->
  Forall (fun c => ones c = 1%nat) cats.
Proof.
  induction 1 as [| r c part cats Hrc _ IH]; constructor; [| assumption].
  now destruct Hrc as (_ & _ & _ & _ & H).
Qed.

(** C10. The label list comes from the whole dataframe, before the split; so
    every record of the train, eval and dev partitions has its label in the
    list, and [_prepare_partition] on any of the three (non-empty) partitions
    builds for every record a distribution with exactly one entry at 1.0:
    an all-zero distribution does not arise. *)
Theorem partitions_have_known_labels (w : World)
    (df tr rest ev dv : DataFrame) :
  splits_rows (train_test_split w) ->
  train_test_split w df (4 # 10) (label_column df) = Some (tr, rest) ->
  train_test_split w rest (5 # 10) (label_column rest) = Some (ev, dv) ->
  forall part, In part [tr; ev; dv] ->
    (forall r, In r part -> In (label r) (train_label_list df))
    /\ (part <> [] ->
        exists texts cats,
          _prepare_partition (preprocess_text w) (itertuples part) false
            (train_label_list df) = Some (texts, cats)
          /\ Forall2
               (fun r c => ground_truth (train_label_list df) (label r) c)
               part cats
          /\ Forall (fun c => ones c = 1%nat) cats).
Proof.
  intros Hsplit H1 H2 part Hpart.
  apply Hsplit in H1. apply Hsplit in H2.
  assert (Hincl : incl part df).
  { intros r Hr. apply (Permutation_in r (Permutation_sym H1)).
    destruct Hpart as [<- | [<- | [<- | []]]].
    - apply in_or_app. now left.
    - apply in_or_app. right. apply (Permutation_in r (Permutation_sym H2)).
      apply in_or_app. now left.
    - apply in_or_app. right. apply (Permutation_in r (Permutation_sym H2)).
      apply in_or_app. now right. }
  split.
  - intros r Hr. now apply label_in_list, Hincl.
  - intros Hne.
    destruct (prepare_partition_covered (preprocess_text w) df part Hincl Hne)
      as (texts & cats & Hp & Hg).
    exists texts, cats. repeat split; try assumption.
    now apply ground_truth_ones with (1 := Hg).
Qed.

Lemma partitions_have_known_labels_witness :
  (forall r, In r [("web", "t5")] ->
             In (label r) (train_label_list even_articles))
  /\ exists texts cats,
       _prepare_partition (fun text => text) (itertuples [("web", "t5")])
         false (train_label_list even_articles) = Some (texts, cats)
       /\ Forall2
            (fun r c =>
               ground_truth (train_label_list even_articles) (label r) c)
            [("web", "t5")] cats
       /\ Forall (fun c => ones c = 1%nat) cats.
Proof.
  destruct (partitions_have_known_labels (sample_world even_articles)
              even_articles
              [("web", "t1"); ("sport", "t2"); ("web", "t3")]
              [("sport", "t4"); ("web", "t5")]
              [("sport", "t4")] [("web", "t5")]
              split_in_order_splits_rows eq_refl eq_refl
              [("web", "t5")] (or_intror (or_intror (or_introl eq_refl))))
    as [H1 H2].
  split; [exact H1 |]. apply H2. discriminate.
Defined.

Lemma main_files (w : World) (model : string) (output_dir : option string)
    (n_iter batch_size : Z) (learn_rate : Q) (sentence_split : bool)
    (epochs : nat) (fs : FileSystem) (df tr rest ev dv : DataFrame) :
  read_csv w = Some df ->
  train_test_split w df (4 # 10) (label_column df) = Some (tr, rest) ->
  train_test_split w rest (5 # 10) (label_column rest) = Some (ev, dv) ->
  fst (main w model output_dir n_iter batch_size learn_rate sentence_split
         epochs fs)
  = exported df tr ev dv fs.
Proof.
  intros H0 H1 H2. unfold main. rewrite H0, H1, H2. reflexivity.
Qed.


Lemma exported_train (df tr ev dv : DataFrame) (fs : FileSystem) :
  Dict.get "data/train.json" (exported df tr ev dv fs) = Some (JsonRows tr).
Proof.
  unfold exported, create_rasa_dev_set, create_rasa_test_set,
    create_rasa_training_set.
  rewrite !(get_set_other "data/train.json") by reflexivity.
  apply get_set_same.
Qed.





Lemma training_loop_stopped (shuffle : Z -> list Example -> list Example)
    (evaluate : Z -> option Scores) (batch_size : Z) (epochs : nat) :
  forall s s' : LoopState,
    training_loop shuffle evaluate batch_size epochs s = Stopped s' ->
    no_improvement (results s') (step s') = true.
Proof.
  induction epochs as [| epochs IH]; intros s s' H; simpl in H.
  - discriminate.
  - destruct (minibatch _ batch_size) as [batches |]; [| discriminate].
    destruct (train_batches _ _ _ _ _) as [[r st] |]; [| discriminate].
    destruct (no_improvement r st) eqn:E.
    + injection H as <-. exact E.
    + now apply IH with (s := {| train_data := shuffle (epoch s) (train_data s);
                                 results := r; epoch := epoch s + 1;
                                 step := st |}).
Qed.

(** C6. Two runs that differ in [n_iter] alone give the same files and the
    same exit: [main] never reads [n_iter].  The loop has no bound on the
    epochs of its own; when it has run into [break], the patience test on
    the results and the step counter held. *)
Theorem n_iter_not_consulted :
  (forall (w : World) (model : string) (output_dir : option string)
          (n_iter n_iter' batch_size : Z) (learn_rate : Q)
          (sentence_split : bool) (epochs : nat) (fs : FileSystem),
      main w model output_dir n_iter batch_size learn_rate sentence_split
        epochs fs
      = main w model output_dir n_iter' batch_size learn_rate sentence_split
          epochs fs)
  /\ (forall (w : World) (model : string) (output_dir : option string)
             (n_iter batch_size : Z) (learn_rate : Q)
             (sentence_split : bool) (epochs : nat) (fs : FileSystem)
             (r : Report),
         snd (main w model output_dir n_iter batch_size learn_rate
                sentence_split epochs fs) = Finished r ->
         no_improvement (checkpoints r) (last_step r) = true).
Proof.
  split; [reflexivity |].
  intros w model output_dir n_iter batch_size learn_rate sentence_split
    epochs fs r H.
  unfold main in H.
  destruct (read_csv w) as [df |]; [| discriminate].
  destruct (train_test_split w df _ _) as [[tr rest] |]; [| discriminate].
  destruct (train_test_split w rest _ _) as [[ev dv] |]; [| discriminate].
  simpl in H.
  destruct load_data as [[[t1 c1] [t2 c2]] |]; [| discriminate].
  destruct (if sentence_split then _ else _) as [t1' c1'].
  destruct (batch_size =? 0)%Z; [discriminate |].
  destruct training_loop as [s | | s] eqn:E; try discriminate.
  injection H as <-. simpl.
  exact (training_loop_stopped _ _ _ _ _ _ E).
Qed.

(** C9. On the same dataframe the three export routines write the same
    text; they differ in the file name only, which makes each the common
    routine [create_rasa_set] at its own name. *)
Theorem rasa_exports_same_content (df : DataFrame) (fs : FileSystem) :
  create_rasa_training_set df fs = create_rasa_set "data/train.md" df fs
  /\ create_rasa_test_set df fs = create_rasa_set "data/test.md" df fs
  /\ create_rasa_dev_set df fs = create_rasa_set "data/dev.md" df fs
  /\ exists text,
       Dict.get "data/train.md" (create_rasa_training_set df fs)
       = Some (Markdown text)
       /\ Dict.get "data/test.md" (create_rasa_test_set df fs)
          = Some (Markdown text)
       /\ Dict.get "data/dev.md" (create_rasa_dev_set df fs)
          = Some (Markdown text).
Proof.
  repeat split.
  eexists. unfold create_rasa_training_set, create_rasa_test_set,
    create_rasa_dev_set.
  rewrite !get_set_same. repeat split.
Qed.

(** ** The Markdown document *)

Lemma append_assoc (a b c : string) :
  ((a ++ b) ++ c)%string = (a ++ (b ++ c))%string.
Proof. induction a as [| ch a IH]; simpl; [reflexivity | now rewrite IH]. Qed.

Lemma append_empty_r (a : string) : (a ++ EmptyString)%string = a.
Proof. induction a as [| ch a IH]; simpl; [reflexivity | now rewrite IH]. Qed.

Lemma write_articles_join (file : string) (articles : list Text) :
  write_articles file articles
  = (file ++ join (map bullet articles))%string.
Proof.
  unfold write_articles. revert file.
  induction articles as [| a articles IH]; intros file;
    cbn [fold_left map join fold_right].
  - now rewrite append_empty_r.
  - rewrite IH. fold (bullet a). apply append_assoc.
Qed.

Lemma write_label_samples_join (file : string)
    (label_samples : Dict.t (list Text)) :
  write_label_samples file label_samples
  = (file ++ join (map (fun la => header (fst la)
                                  ++ join (map bullet (snd la)))
                     label_samples))%string.
Proof.
  unfold write_label_samples, Dict.items. revert file.
  induction label_samples as [| la d IH]; intros file;
    cbn [fold_left map join fold_right].
  - now rewrite append_empty_r.
  - rewrite IH, write_articles_join. fold (header (fst la)).
    fold (join (map bullet (snd la))).
    now rewrite !append_assoc.
Qed.

Lemma mem_tabulate {V} (g : string -> V) (ks : list string) (l : string) :
  Dict.mem l (map (fun k => (k, g k)) ks) = mem_str l ks.
Proof.
  unfold Dict.mem. induction ks as [| k ks IH]; simpl.
  - reflexivity.
  - destruct (String.eqb l k); [reflexivity | exact IH].
Qed.

Lemma set_tabulate_fresh {V} (g : string -> V) (ks : list string)
    (l : string) (v : V) :
  mem_str l ks = false ->
  Dict.set l v (map (fun k => (k, g k)) ks)
  = map (fun k => (k, g k)) ks ++ [(l, v)].
Proof.
  induction ks as [| k ks IH]; simpl; intros H.
  - reflexivity.
  - apply orb_false_iff in H. destruct H as [H1 H2].
    now rewrite H1, IH.
Qed.

Lemma update_tabulate_last {V} (g : string -> V) (ks : list string)
    (l : string) (v : V) (f : V -> V) :
  mem_str l ks = false ->
  Dict.update l f (map (fun k => (k, g k)) ks ++ [(l, v)])
  = map (fun k => (k, g k)) ks ++ [(l, f v)].
Proof.
  induction ks as [| k ks IH]; simpl; intros H.
  - now rewrite String.eqb_refl.
  - apply orb_false_iff in H. destruct H as [H1 H2].
    now rewrite H1, IH.
Qed.

Lemma update_tabulate {V} (g : string -> V) (ks : list string)
    (l : string) (f : V -> V) :
  NoDup ks ->
  Dict.update l f (map (fun k => (k, g k)) ks)
  = map (fun k => (k, if String.eqb l k then f (g k) else g k)) ks.
Proof.
  induction 1 as [| k ks Hk Hks IH]; simpl.
  - reflexivity.
  - destruct (String.eqb l k) eqn:E.
    + apply String.eqb_eq in E. subst l. f_equal.
      apply map_ext_in. intros k' Hk'.
      destruct (String.eqb k k') eqn:E'; [| reflexivity].
      apply String.eqb_eq in E'. now subst.
    + now rewrite IH.
Qed.

Lemma articles_of_snoc (df : DataFrame) (r : Row) (l : Label) :
  articles_of (df ++ [r]) l
  = articles_of df l ++ (if String.eqb (label r) l then [article r] else []).
Proof.
  unfold articles_of. rewrite filter_app, map_app. simpl.
  now destruct (String.eqb (label r) l).
Qed.

Lemma articles_of_absent (df : DataFrame) (l : Label) :
  ~ In l (label_column df) -> articles_of df l = [].
Proof.
  unfold articles_of, label_column.
  induction df as [| r df IH]; simpl; intros H.
  - reflexivity.
  - destruct (String.eqb (label r) l) eqn:E.
    + apply String.eqb_eq in E. tauto.
    + apply IH. tauto.
Qed.

(** The dictionary the [iterrows] loop builds. *)
Lemma label_samples_tabulate (df : DataFrame) :
  fold_left add_sample df Dict.empty
  = map (fun l => (l, articles_of df l)) (unique (label_column df)).
Proof.
  induction df as [| r df IH] using rev_ind.
  - reflexivity.
  - rewrite fold_left_app. simpl. rewrite IH.
    unfold label_column. rewrite map_app. simpl.
    fold (label_column df). rewrite unique_snoc.
    unfold add_sample, unique_step.
    rewrite (mem_tabulate (articles_of df)).
    destruct (mem_str (label r) (unique (label_column df))) eqn:E; simpl.
    + rewrite (update_tabulate (articles_of df)) by apply NoDup_unique.
      apply map_ext. intros k. rewrite articles_of_snoc.
      destruct (String.eqb (label r) k); [reflexivity |].
      now rewrite app_nil_r.
    + rewrite (set_tabulate_fresh (articles_of df)) by assumption.
      rewrite (update_tabulate_last (articles_of df)) by assumption.
      rewrite map_app. simpl. f_equal.
      * apply map_ext_in. intros k Hk. rewrite articles_of_snoc.
        destruct (String.eqb (label r) k) eqn:E'; [| now rewrite app_nil_r].
        apply String.eqb_eq in E'. subst k.
        apply mem_str_not_In in E. contradiction.
      * rewrite articles_of_snoc, String.eqb_refl.
        rewrite articles_of_absent; [reflexivity |].
        apply mem_str_not_In in E. now rewrite In_unique in E.
Qed.

Lemma markdown_of_label_samples (df : DataFrame) :
  write_label_samples EmptyString (fold_left add_sample df Dict.empty)
  = md_document df.
Proof.
  rewrite write_label_samples_join, label_samples_tabulate, map_map.
  reflexivity.
Qed.

(** C7. The text written to [data/train.md] (and, by the two sibling
    routines, to [data/test.md] and [data/dev.md]) is a header
    [## intent:<label>] per distinct label, in the order the labels are first
    met, each followed by a line [- <text>] per record of that label, in row
    order.  For the records (a, x), (b, y), (a, z) it is the header of a,
    the lines of x and z, the header of b, the line of y. *)
Theorem rasa_training_set_markdown (df : DataFrame) (fs : FileSystem) :
  Dict.get "data/train.md" (create_rasa_training_set df fs)
  = Some (Markdown (md_document df))
  /\ Dict.get "data/test.md" (create_rasa_test_set df fs)
     = Some (Markdown (md_document df))
  /\ Dict.get "data/dev.md" (create_rasa_dev_set df fs)
     = Some (Markdown (md_document df))
  /\ NoDup (unique (label_column df))
  /\ (forall l, In l (unique (label_column df)) <-> In l (label_column df))
  /\ Dict.get "data/train.md"
       (create_rasa_training_set [("a", "x"); ("b", "y"); ("a", "z")] fs)
     = Some (Markdown
               ("## intent:a" ++ newline ++ "- x" ++ newline
                ++ "- z" ++ newline ++ "## intent:b" ++ newline
                ++ "- y" ++ newline)%string).
Proof.
  unfold create_rasa_training_set, create_rasa_test_set, create_rasa_dev_set.
  rewrite !get_set_same, !markdown_of_label_samples.
  repeat split.
  - apply NoDup_unique.
  - apply In_unique.
  - apply In_unique.
Qed.

(** ** Evaluator *)

Lemma argmax_from_spec (probs : list Q) :
  forall (best_i : nat) (best : Q) (i : nat),
    (argmax_from best_i best i probs = best_i
     /\ forall j q, nth_error probs j = Some q -> (q <= best)%Q)
    \/ exists j p,
         argmax_from best_i best i probs = (i + j)%nat
         /\ nth_error probs j = Some p
         /\ (best < p)%Q
         /\ (forall j' q, nth_error probs j' = Some q -> q <= p)%Q
         /\ (forall j' q, (j' < j)%nat -> nth_error probs j' = Some q ->
                          q < p)%Q.
Proof.
  induction probs as [| p probs IH]; intros best_i best i; simpl.
  - left. split; [reflexivity |]. intros [| j] q H; discriminate.
  - destruct (Qle_bool p best) eqn:E.
    + apply Qle_bool_iff in E.
      destruct (IH best_i best (S i)) as [[H1 H2] | (j & p' & H1 & H2 & H3 & H4 & H5)].
      * left. split; [assumption |].
        intros [| j] q H; simpl in H; [injection H as <-; assumption |].
        now apply (H2 j).
      * right. exists (S j), p'. repeat split.
        -- rewrite H1. lia.
        -- assumption.
        -- assumption.
        -- intros [| j'] q H; simpl in H.
           ++ injection H as <-. apply Qlt_le_weak.
              now apply Qle_lt_trans with best.
           ++ now apply (H4 j').
        -- intros [| j'] q Hlt H; simpl in H.
           ++ injection H as <-. now apply Qle_lt_trans with best.
           ++ apply (H5 j'); [lia | assumption].
    + assert (Hlt : (best < p)%Q).
      { apply Qnot_le_lt. intros H. apply Qle_bool_iff in H. congruence. }
      destruct (IH i p (S i)) as [[H1 H2] | (j & p' & H1 & H2 & H3 & H4 & H5)].
      * right. exists 0%nat, p. repeat split.
        -- rewrite H1. lia.
        -- assumption.
        -- intros [| j'] q H; simpl in H.
           ++ injection H as <-. apply Qle_refl.
           ++ now apply (H2 j').
        -- intros j' q Hj. lia.
      * right. exists (S j), p'. repeat split.
        -- rewrite H1. lia.
        -- assumption.
        -- now apply Qlt_trans with p.
        -- intros [| j'] q H; simpl in H.
           ++ injection H as <-. now apply Qlt_le_weak.
           ++ now apply (H4 j').
        -- intros [| j'] q Hj H; simpl in H.
           ++ injection H as <-. assumption.
           ++ apply (H5 j'); [lia | assumption].
Qed.

Lemma np_argmax_first_max (probs : list Q) :
  probs <> [] ->
  exists i, np_argmax probs = Some i /\ is_first_max probs i.
Proof.
  destruct probs as [| p0 probs]; [contradiction |]. intros _. simpl.
  destruct (argmax_from_spec probs 0 p0 1)
    as [[H1 H2] | (j & p' & H1 & H2 & H3 & H4 & H5)].
  - exists 0%nat. split; [now rewrite H1 |]. exists p0. repeat split.
    + intros [| j] q H; simpl in H.
      * injection H as <-. apply Qle_refl.
      * now apply (H2 j).
    + intros j q Hj. lia.
  - exists (S j). split; [now rewrite H1 |]. exists p'. repeat split.
    + assumption.
    + intros [| j'] q H; simpl in H.
      * injection H as <-. now apply Qlt_le_weak.
      * now apply (H4 j').
    + intros [| j'] q Hj H; simpl in H.
      * injection H as <-. assumption.
      * apply (H5 j'); [lia | assumption].
Qed.

Lemma find_max_prob_cat_first_argmax (c : Cats) :
  c <> [] ->
  exists l, find_max_prob_cat c = Some l /\ first_argmax c l.
Proof.
  intros Hc. unfold find_max_prob_cat, Dict.items.
  destruct c as [| kv c]; [contradiction |].
  destruct (np_argmax_first_max (Dict.values (kv :: c))) as (i & Hi & Hmax);
    [discriminate |].
  rewrite Hi.
  destruct Hmax as (p & Hp & Hle & Hlt).
  assert (Hk : exists l, nth_error (Dict.keys (kv :: c)) i = Some l).
  { unfold Dict.values, Dict.keys in *. rewrite nth_error_map in Hp.
    rewrite nth_error_map.
    destruct (nth_error (kv :: c) i) as [[k v] |]; [| discriminate].
    now exists k. }
  destruct Hk as (l & Hl). exists l. split; [assumption |].
  exists i. split; [| assumption]. now exists p.
Qed.

Lemma count_correct_agreements (nlp_cats : Text -> Cats) (texts : list Text) :
  forall (cats seen : list Cats) (correct : Z),
    List.length texts = List.length cats ->
    Forall (fun c => c <> []) cats ->
    (forall text, In text texts -> nlp_cats text <> []) ->
    exists n,
      count_correct nlp_cats (seen ++ cats) (List.length seen) texts correct
      = Some (correct + n)%Z
      /\ agreements nlp_cats texts cats n
      /\ (0 <= n <= len texts)%Z.
Proof.
  induction texts as [| text texts IH]; intros cats seen correct Hlen Hc Hp.
  - destruct cats; [| discriminate]. exists 0%Z. simpl.
    repeat split; [f_equal; lia | constructor | lia | unfold len; simpl; lia].
  - destruct cats as [| c cats]; [discriminate |].
    injection Hlen as Hlen. inversion Hc as [| c' cats' Hc1 Hc2]; subst.
    destruct (find_max_prob_cat_first_argmax c Hc1) as (tl & Ht1 & Ht2).
    destruct (find_max_prob_cat_first_argmax (nlp_cats text)) as (pl & Hp1 & Hp2).
    { apply Hp. now left. }
    destruct (IH cats (seen ++ [c])
                (if String.eqb tl pl then correct + 1 else correct)%Z
                Hlen Hc2)
      as (n & Hn1 & Hn2 & Hn3).
    { intros t Ht. apply Hp. now right. }
    exists ((if String.eqb tl pl then 1 else 0) + n)%Z.
    cbn [count_correct].
    rewrite nth_error_app2, Nat.sub_diag by lia. cbn [nth_error].
    rewrite Ht1, Hp1.
    rewrite <- app_assoc, length_app in Hn1. cbn [List.length app] in Hn1.
    replace (List.length seen + 1)%nat with (S (List.length seen)) in Hn1 by lia.
    rewrite Hn1. repeat split.
    + f_equal. destruct (String.eqb tl pl); lia.
    + now constructor.
    + destruct (String.eqb tl pl); lia.
    + unfold len in *. cbn [List.length].
      destruct (String.eqb tl pl); lia.
Qed.

(** C5. On as many true distributions as texts, at least one text, and
    distributions that are not empty, [evaluate_multiclass] takes the
    arg-max label of each true and each predicted distribution (the first
    label in iteration order among those at the maximum), counts the texts
    on which the two agree, and returns that count as [textcat_cor], the
    count over the number of texts as [textcat_acc], and the rest of the
    texts as [textcat_wrg]. *)
Theorem evaluate_multiclass_accuracy (nlp_cats : Text -> Cats)
    (texts : list Text) (cats : list Cats) :
  texts <> [] ->
  List.length texts = List.length cats ->
  Forall (fun c => c <> []) cats ->
  (forall text, In text texts -> nlp_cats text <> []) ->
  exists correct,
    evaluate_multiclass nlp_cats texts cats
    = Some {| textcat_acc := inject_Z correct / inject_Z (len texts);
              textcat_cor := correct;
              textcat_wrg := len texts - correct |}
    /\ agreements nlp_cats texts cats correct
    /\ (0 <= correct <= len texts)%Z
    /\ (correct + (len texts - correct) = len texts)%Z.
Proof.
  intros Hne Hlen Hc Hp.
  destruct (count_correct_agreements nlp_cats texts cats [] 0%Z Hlen Hc Hp)
    as (n & Hn1 & Hn2 & Hn3).
  exists n. unfold evaluate_multiclass.
  cbn [app List.length] in Hn1. rewrite Hn1. cbn [Z.add].
  assert (Hz : (len texts =? 0)%Z = false).
  { apply Z.eqb_neq. unfold len. destruct texts; [contradiction |].
    cbn [List.length]. lia. }
  rewrite Hz. repeat split; try assumption; lia.
Qed.

Lemma evaluate_multiclass_accuracy_witness :
  exists correct,
    evaluate_multiclass
      (fun text => if String.eqb text "goal" then
                     [("web", 1 # 4); ("sport", 3 # 4)]
                   else [("web", 1 # 2); ("sport", 1 # 2)])
      ["goal"; "site"]
      [ [("web", 0); ("sport", 1)]; [("web", 0); ("sport", 1)] ]
    = Some {| textcat_acc := inject_Z correct / inject_Z (len ["goal"; "site"]);
              textcat_cor := correct;
              textcat_wrg := len ["goal"; "site"] - correct |}
    /\ agreements
         (fun text => if String.eqb text "goal" then
                        [("web", 1 # 4); ("sport", 3 # 4)]
                      else [("web", 1 # 2); ("sport", 1 # 2)])
         ["goal"; "site"]
         [ [("web", 0); ("sport", 1)]; [("web", 0); ("sport", 1)] ] correct
    /\ (0 <= correct <= len ["goal"; "site"])%Z
    /\ (correct + (len ["goal"; "site"] - correct) = len ["goal"; "site"])%Z.
Proof.
  apply evaluate_multiclass_accuracy.
  - discriminate.
  - reflexivity.
  - repeat constructor; discriminate.
  - intros text _. destruct (String.eqb text "goal"); discriminate.
Defined.

Example evaluate_multiclass_tie :
  evaluate_multiclass
    (fun text => if String.eqb text "goal" then
                   [("web", 1 # 4); ("sport", 3 # 4)]
                 else [("web", 1 # 2); ("sport", 1 # 2)])
    ["goal"; "site"]
    [ [("web", 0); ("sport", 1)]; [("web", 0); ("sport", 1)] ]
  = Some {| textcat_acc := 1 / 2; textcat_cor := 1; textcat_wrg := 1 |}.
Proof. reflexivity. Qed.

(** ** The order of checkpoint results *)

Lemma tuple_compare_spec (a b : CheckpointResult) :
  match tuple_compare a b with
  | Eq => (cr_score a == cr_score b)%Q
          /\ cr_step a = cr_step b /\ cr_epoch a = cr_epoch b
  | Lt => (cr_score a < cr_score b)%Q
          \/ ((cr_score a == cr_score b)%Q
              /\ ((cr_step a < cr_step b)%Z
                  \/ (cr_step a = cr_step b
                      /\ (cr_epoch a < cr_epoch b)%Z)))
  | Gt => (cr_score b < cr_score a)%Q
          \/ ((cr_score a == cr_score b)%Q
              /\ ((cr_step b < cr_step a)%Z
                  \/ (cr_step a = cr_step b
                      /\ (cr_epoch b < cr_epoch a)%Z)))
  end.
Proof.
  unfold tuple_compare.
  destruct (Qcompare_spec (cr_score a) (cr_score b));
    destruct (Z.compare_spec (cr_step a) (cr_step b));
    destruct (Z.compare_spec (cr_epoch a) (cr_epoch b)); auto.
Qed.

Ltac order_cases a b :=
  let H := fresh "H" in
  pose proof (tuple_compare_spec a b) as H;
  destruct (tuple_compare a b).

Ltac order_close :=
  try congruence; intuition (try lra; try lia).

Lemma tuple_ge_refl (a : CheckpointResult) : tuple_ge a a.
Proof. unfold tuple_ge. order_cases a a; order_close. Qed.

Lemma tuple_ge_trans (a b c : CheckpointResult) :
  tuple_ge a b -> tuple_ge b c -> tuple_ge a c.
Proof.
  unfold tuple_ge.
  order_cases a b; order_cases b c; order_cases a c; order_close.
Qed.

Lemma tuple_lt_ge (a b : CheckpointResult) :
  tuple_lt a b = true -> tuple_ge b a.
Proof.
  unfold tuple_lt, tuple_ge.
  order_cases a b; order_cases b a; order_close.
Qed.

Lemma tuple_not_lt_ge (a b : CheckpointResult) :
  tuple_lt a b = false -> tuple_ge a b.
Proof. unfold tuple_lt, tuple_ge. destruct (tuple_compare a b); congruence. Qed.

Lemma tuple_gt_ge (a b : CheckpointResult) :
  tuple_gt a b = true -> tuple_ge a b.
Proof. unfold tuple_gt, tuple_ge. destruct (tuple_compare a b); congruence. Qed.

Lemma tuple_not_gt_ge (a b : CheckpointResult) :
  tuple_gt a b = false -> tuple_ge b a.
Proof.
  unfold tuple_gt, tuple_ge.
  order_cases a b; order_cases b a; order_close.
Qed.

Lemma tuple_ge_score (a b : CheckpointResult) :
  tuple_ge a b -> (cr_score b <= cr_score a)%Q.
Proof. unfold tuple_ge. order_cases a b; order_close. Qed.

Lemma tuple_ge_tie (a b : CheckpointResult) :
  tuple_ge a b -> (cr_score a == cr_score b)%Q ->
  (cr_step b <= cr_step a)%Z.
Proof. unfold tuple_ge. order_cases a b; order_close. Qed.

(** ** [max(results)] *)

Lemma fold_max_spec (l : list CheckpointResult) :
  forall m0,
    let m := fold_left (fun m item => if tuple_gt item m then item else m)
               l m0 in
    (m = m0 \/ In m l) /\ tuple_ge m m0 /\ forall x, In x l -> tuple_ge m x.
Proof.
  induction l as [| y l IH]; intros m0; simpl.
  - split; [now left |]. split; [apply tuple_ge_refl | intros x []].
  - destruct (tuple_gt y m0) eqn:E.
    + destruct (IH y) as (H1 & H2 & H3). repeat split.
      * destruct H1 as [-> | H1]; auto.
      * apply tuple_ge_trans with y; [assumption | now apply tuple_gt_ge].
      * intros x [<- | Hx]; [assumption | now apply H3].
    + destruct (IH m0) as (H1 & H2 & H3). repeat split.
      * destruct H1 as [-> | H1]; auto.
      * assumption.
      * intros x [<- | Hx]; [| now apply H3].
        apply tuple_ge_trans with m0; [assumption | now apply tuple_not_gt_ge].
Qed.

Lemma py_max_spec (results : list CheckpointResult) :
  results <> [] ->
  exists best,
    py_max results = Some best
    /\ In best results
    /\ forall c, In c results -> tuple_ge best c.
Proof.
  destruct results as [| r results]; [contradiction |]. intros _.
  destruct (fold_max_spec results r) as (H1 & H2 & H3).
  eexists. split; [reflexivity |]. split.
  - destruct H1 as [-> | H1]; [now left | now right].
  - intros c [<- | Hc]; [assumption | now apply H3].
Qed.

Lemma py_max_later_among_ties (results : list CheckpointResult)
    (best c : CheckpointResult) :
  py_max results = Some best -> In c results ->
  (cr_score c <= cr_score best)%Q
  /\ ((cr_score c == cr_score best)%Q -> (cr_step c <= cr_step best)%Z).
Proof.
  intros Hb Hc.
  destruct (py_max_spec results) as (best' & H1 & H2 & H3).
  { intros ->. contradiction. }
  rewrite H1 in Hb. injection Hb as ->.
  split.
  - apply tuple_ge_score. now apply H3.
  - intros He. apply tuple_ge_tie; [now apply H3 |]. now symmetry.
Qed.

(** C3. [max(results)] compares whole tuples: of two checkpoints with the
    same accuracy it returns the one with the greater step, the one recorded
    later, not the earlier one.  Here the checkpoint of step 400 is taken
    over the equally accurate checkpoint recorded before it at step 300, and
    the test after the epoch that ends at step 600 does not stop the loop. *)
Theorem py_max_tie_takes_later :
  py_max [(9 # 10, 300, 3); (9 # 10, 400, 4)]%Z = Some (9 # 10, 400, 4)%Z
  /\ no_improvement [(9 # 10, 300, 3); (9 # 10, 400, 4)]%Z 600 = false.
Proof. split; reflexivity. Qed.

(** ** [sorted(results, reverse=True)] *)

Lemma insert_reverse_perm (x : CheckpointResult) (l : list CheckpointResult) :
  Permutation (x :: l) (insert_reverse x l).
Proof.
  induction l as [| y l IH]; simpl.
  - apply Permutation_refl.
  - destruct (tuple_lt x y); [| apply Permutation_refl].
    apply perm_trans with (y :: x :: l); [apply perm_swap |].
    now apply perm_skip.
Qed.

Lemma sorted_reverse_perm (l : list CheckpointResult) :
  Permutation l (sorted_reverse l).
Proof.
  induction l as [| x l IH]; simpl.
  - apply perm_nil.
  - apply perm_trans with (x :: sorted_reverse l).
    + now apply perm_skip.
    + apply insert_reverse_perm.
Qed.

Lemma insert_reverse_sorted (x : CheckpointResult)
    (l : list CheckpointResult) :
  StronglySorted tuple_ge l -> StronglySorted tuple_ge (insert_reverse x l).
Proof.
  induction 1 as [| y l Hl IH Hy]; simpl.
  - repeat constructor.
  - destruct (tuple_lt x y) eqn:E.
    + constructor; [assumption |].
      apply Forall_forall. intros z Hz.
      apply (Permutation_in z (Permutation_sym (insert_reverse_perm x l))) in Hz.
      destruct Hz as [<- | Hz]; [now apply tuple_lt_ge |].
      rewrite Forall_forall in Hy. now apply Hy.
    + apply tuple_not_lt_ge in E.
      constructor; [now constructor |].
      constructor; [assumption |].
      apply Forall_forall. intros z Hz. rewrite Forall_forall in Hy.
      apply tuple_ge_trans with y; [assumption | now apply Hy].
Qed.

Lemma sorted_reverse_sorted (l : list CheckpointResult) :
  StronglySorted tuple_ge (sorted_reverse l).
Proof.
  induction l as [| x l IH]; simpl; [constructor |].
  now apply insert_reverse_sorted.
Qed.

Lemma StronglySorted_app_inv {A} (R : A -> A -> Prop) (l1 l2 : list A) :
  StronglySorted R (l1 ++ l2) ->
  StronglySorted R l1 /\ StronglySorted R l2
  /\ forall a b, In a l1 -> In b l2 -> R a b.
Proof.
  induction l1 as [| x l1 IH]; simpl; intros H.
  - repeat split; [constructor | assumption | intros a b []].
  - inversion H as [| x' l' Hs Hx]; subst.
    destruct (IH Hs) as (H1 & H2 & H3).
    rewrite Forall_app in Hx. destruct Hx as [Hx1 Hx2].
    repeat split.
    + now constructor.
    + assumption.
    + intros a b [<- | Ha] Hb; [| now apply H3].
      rewrite Forall_forall in Hx2. now apply Hx2.
Qed.

Lemma distinct_scores_perm (l l' : list CheckpointResult) :
  Permutation l l' -> distinct_scores l -> distinct_scores l'.
Proof.
  induction 1 as [| x l l' Hp IH | x y l | l l' l'' H1 IH1 H2 IH2]; intros Hd.
  - assumption.
  - inversion Hd as [| a l0 Ha Hl]; subst. constructor.
    + now apply (Permutation_Forall Hp).
    + now apply IH.
  - inversion Hd as [| a l0 Ha Hl]; subst.
    inversion Hl as [| a' l1 Ha' Hl']; subst.
    inversion Ha as [| b l2 Hb Hl2]; subst.
    constructor.
    + constructor; [| assumption]. intros He. apply Hb. now symmetry.
    + now constructor.
  - auto.
Qed.

Lemma sorted_distinct_strict (l : list CheckpointResult) :
  StronglySorted tuple_ge l -> distinct_scores l ->
  StronglySorted (fun a b => (cr_score b < cr_score a)%Q) l.
Proof.
  induction 1 as [| a l Hl IH Ha]; intros Hd; [constructor |].
  inversion Hd as [| a' l' Hda Hdl]; subst.
  constructor; [now apply IH |].
  rewrite Forall_forall in *. intros b Hb.
  pose proof (tuple_ge_score a b (Ha b Hb)) as Hle.
  pose proof (Hda b Hb) as Hne. lra.
Qed.

Lemma StronglySorted_weaken {A} (R R' : A -> A -> Prop) (l : list A) :
  (forall a b, R a b -> R' a b) ->
  StronglySorted R l -> StronglySorted R' l.
Proof.
  intros HR. induction 1 as [| a l Hl IH Ha]; constructor; [assumption |].
  rewrite Forall_forall in *. auto.
Qed.

(** C8. The table holds the first ten checkpoints of the results sorted in
    descending order and nothing else: the rows go by descending accuracy
    and no checkpoint left out is more accurate than one printed.  When the
    accuracies are pairwise distinct the order is strict; of 15 results
    the table has 10 rows and leaves 5 out. *)
Theorem report_top_ten (results : list CheckpointResult) :
  exists top rest,
    report results = map row top
    /\ Permutation results (top ++ rest)
    /\ top = firstn 10 (sorted_reverse results)
    /\ List.length top = Nat.min 10 (List.length results)
    /\ StronglySorted (fun a b => (cr_score b <= cr_score a)%Q) top
    /\ (forall a b, In a top -> In b rest -> (cr_score b <= cr_score a)%Q)
    /\ (distinct_scores results ->
        StronglySorted (fun a b => (cr_score b < cr_score a)%Q) top
        /\ forall a b, In a top -> In b rest -> (cr_score b < cr_score a)%Q)
    /\ (List.length results = 15%nat ->
        List.length top = 10%nat /\ List.length rest = 5%nat).
Proof.
  exists (firstn 10 (sorted_reverse results)),
    (skipn 10 (sorted_reverse results)).
  pose proof (sorted_reverse_perm results) as Hp.
  pose proof (Permutation_length Hp) as Hl.
  pose proof (sorted_reverse_sorted results) as Hs.
  split; [reflexivity |].
  split; [now rewrite firstn_skipn |].
  split; [reflexivity |].
  split; [rewrite length_firstn; lia |].
  assert (Hw : StronglySorted (fun a b => (cr_score b <= cr_score a)%Q)
                 (firstn 10 (sorted_reverse results)
                  ++ skipn 10 (sorted_reverse results))).
  { rewrite firstn_skipn.
    apply (StronglySorted_weaken tuple_ge); [apply tuple_ge_score | exact Hs]. }
  apply StronglySorted_app_inv in Hw. destruct Hw as (W1 & _ & W3).
  split; [exact W1 |]. split; [exact W3 |]. split.
  - intros Hd.
    assert (Hst : StronglySorted (fun a b => (cr_score b < cr_score a)%Q)
                    (firstn 10 (sorted_reverse results)
                     ++ skipn 10 (sorted_reverse results))).
    { rewrite firstn_skipn. apply sorted_distinct_strict; [exact Hs |].
      now apply (distinct_scores_perm results). }
    apply StronglySorted_app_inv in Hst. destruct Hst as (S1 & _ & S3).
    split; assumption.
  - intros H15. rewrite length_firstn, length_skipn. lia.
Qed.

Lemma fifteen_results_distinct : distinct_scores fifteen_results.
Proof.
  unfold fifteen_results.
  repeat (constructor;
          [repeat (constructor; [intros H; discriminate H |]);
           constructor |]).
  constructor.
Defined.

Lemma report_top_ten_witness :
  exists top rest,
    report fifteen_results = map row top
    /\ Permutation fifteen_results (top ++ rest)
    /\ List.length top = 10%nat /\ List.length rest = 5%nat
    /\ StronglySorted (fun a b => (cr_score b < cr_score a)%Q) top
    /\ forall a b, In a top -> In b rest -> (cr_score b < cr_score a)%Q.
Proof.
  destruct (report_top_ten fifteen_results)
    as (top & rest & H1 & H2 & _ & _ & _ & _ & H7 & H8).
  destruct (H7 fifteen_results_distinct) as [H9 H10].
  destruct (H8 eq_refl) as [H11 H12].
  exists top, rest. repeat split; assumption.
Defined.

Example report_fifteen :
  report fifteen_results
  = [(5, 1100, ((90 # 100) * 100)%Q); (4, 1000, ((88 # 100) * 100)%Q);
     (5, 1200, ((87 # 100) * 100)%Q); (6, 1300, ((86 # 100) * 100)%Q);
     (3, 800, ((85 # 100) * 100)%Q); (6, 1400, ((84 # 100) * 100)%Q);
     (4, 900, ((83 # 100) * 100)%Q); (7, 1500, ((82 # 100) * 100)%Q);
     (2, 600, ((81 # 100) * 100)%Q); (3, 700, ((79 # 100) * 100)%Q)]%Z.
Proof. reflexivity. Qed.

(** ** Early stopping *)

Lemma slices_length {A} (fuel size : nat) :
  forall l l' : list A,
    List.length l = List.length l' ->
    List.length (slices fuel size l) = List.length (slices fuel size l').
Proof.
  induction fuel as [| fuel IH]; intros l l' Hlen; simpl; [reflexivity |].
  pose proof (length_firstn size l) as H1.
  pose proof (length_firstn size l') as H2.
  destruct (firstn size l) as [| x b] eqn:E1;
    destruct (firstn size l') as [| x' b'] eqn:E2;
    simpl in H1, H2; try lia.
  simpl. f_equal. apply IH. rewrite !length_skipn. lia.
Qed.

Lemma training_loop_more (shuffle : Z -> list Example -> list Example)
    (evaluate : Z -> option Scores) (batch_size : Z) (epochs : nat) :
  forall (s s' : LoopState) (more : nat),
    training_loop shuffle evaluate batch_size epochs s = Stopped s' ->
    training_loop shuffle evaluate batch_size (epochs + more) s = Stopped s'.
Proof.
  induction epochs as [| epochs IH]; intros s s' more H; simpl in *.
  - discriminate.
  - destruct (minibatch _ batch_size) as [batches |]; [| discriminate].
    destruct (train_batches _ _ _ _ _) as [[r st] |]; [| discriminate].
    destruct (no_improvement r st); [assumption |].
    now apply IH.
Qed.

Lemma training_loop_resume (shuffle : Z -> list Example -> list Example)
    (evaluate : Z -> option Scores) (batch_size : Z) (epochs : nat) :
  forall (s s1 : LoopState) (more : nat),
    training_loop shuffle evaluate batch_size epochs s = Running s1 ->
    training_loop shuffle evaluate batch_size (epochs + more) s
    = training_loop shuffle evaluate batch_size more s1.
Proof.
  induction epochs as [| epochs IH]; intros s s1 more H; simpl in *.
  - now injection H as <-.
  - destruct (minibatch _ batch_size) as [batches |]; [| discriminate].
    destruct (train_batches _ _ _ _ _) as [[r st] |]; [| discriminate].
    destruct (no_improvement r st); [discriminate |].
    now apply IH.
Qed.

Lemma train_batches_step {A} (evaluate : Z -> option Scores) (epoch : Z)
    (batches : list A) :
  forall (results results' : list CheckpointResult) (step step' : Z),
    train_batches evaluate epoch batches results step = Some (results', step')
    -> (step <= step')%Z.
Proof.
  induction batches as [| b batches IH]; intros results results' step step' H;
    simpl in H.
  - injection H as _ <-. lia.
  - destruct (negb (step =? 0)%Z && (step mod eval_every =? 0)%Z).
    + destruct (evaluate step); [| discriminate].
      apply IH in H. lia.
    + apply IH in H. lia.
Qed.

Lemma training_loop_step (shuffle : Z -> list Example -> list Example)
    (evaluate : Z -> option Scores) (batch_size : Z) (epochs : nat) :
  forall s s' : LoopState,
    training_loop shuffle evaluate batch_size epochs s = Stopped s' ->
    (step s <= step s')%Z.
Proof.
  induction epochs as [| epochs IH]; intros s s' H; simpl in H.
  - discriminate.
  - destruct (minibatch _ batch_size) as [batches |]; [| discriminate].
    destruct (train_batches _ _ _ _ _) as [[r st] |] eqn:E; [| discriminate].
    apply train_batches_step in E.
    destruct (no_improvement r st).
    + injection H as <-. exact E.
    + apply IH in H. simpl in H. lia.
Qed.

(** A loop that is still running after some epochs does not stop at a step
    below the one it has reached. *)
Lemma running_then_later (shuffle : Z -> list Example -> list Example)
    (evaluate : Z -> option Scores) (batch_size : Z) (n : nat)
    (s s1 : LoopState) :
  training_loop shuffle evaluate batch_size n s = Running s1 ->
  forall (epochs : nat) (s' : LoopState),
    training_loop shuffle evaluate batch_size epochs s = Stopped s' ->
    (step s1 <= step s')%Z.
Proof.
  intros Hrun epochs s' Hstop.
  destruct (Nat.le_gt_cases epochs n) as [Hle | Hgt].
  - apply training_loop_more with (more := (n - epochs)%nat) in Hstop.
    replace (epochs + (n - epochs))%nat with n in Hstop by lia.
    congruence.
  - apply training_loop_resume with (more := (epochs - n)%nat) in Hrun.
    replace (n + (epochs - n))%nat with epochs in Hrun by lia.
    rewrite Hrun in Hstop. now apply training_loop_step in Hstop.
Qed.

Lemma train_batches_run {A} (scores : Z -> Scores) (epoch : Z)
    (batches : list A) :
  forall (results : list CheckpointResult) (step : Z),
    exists results',
      train_batches (stream_evaluate scores) epoch batches results step
      = Some (results', (step + len batches)%Z)
      /\ forall c,
           In c results' <->
           In c results
           \/ ((step <= cr_step c < step + len batches)%Z
               /\ cr_step c <> 0%Z
               /\ (cr_step c mod eval_every = 0)%Z
               /\ c = (textcat_acc (scores (cr_step c)), cr_step c, epoch)).
Proof.
  unfold len.
  induction batches as [| b batches IH]; intros results step;
    cbn [train_batches List.length].
  - exists results. split; [f_equal; f_equal; lia |].
    intros c. split; [tauto |]. intros [H | H]; [assumption | lia].
  - destruct (negb (step =? 0)%Z && (step mod eval_every =? 0)%Z) eqn:E.
    + apply andb_true_iff in E. destruct E as [E1 E2].
      apply negb_true_iff, Z.eqb_neq in E1. apply Z.eqb_eq in E2.
      unfold stream_evaluate at 1.
      destruct (IH (results ++ [(textcat_acc (scores step), step, epoch)])
                  (step + 1)%Z) as (results' & H1 & H2).
      exists results'. split; [rewrite H1; f_equal; f_equal; lia |].
      intros c. rewrite H2, in_app_iff. simpl. split.
      * intros [[H | [<- | []]] | H]; [tauto | | right].
        -- right. unfold cr_step. simpl. repeat split; try assumption; lia.
        -- repeat split; try tauto; lia.
      * intros [H | (H3 & H4 & H5 & H6)]; [tauto |].
        destruct (Z.eq_dec (cr_step c) step) as [He | He].
        -- left. right. left. rewrite H6, He. reflexivity.
        -- right. repeat split; try assumption; lia.
    + destruct (IH results (step + 1)%Z) as (results' & H1 & H2).
      exists results'. split; [rewrite H1; f_equal; f_equal; lia |].
      intros c. rewrite H2. split.
      * intros [H | H]; [tauto | right]. repeat split; try tauto; lia.
      * intros [H | (H3 & H4 & H5 & H6)]; [tauto |].
        destruct (Z.eq_dec (cr_step c) step) as [He | He].
        -- exfalso. apply andb_false_iff in E. rewrite <- He in E.
           destruct E as [E | E].
           ++ apply negb_false_iff, Z.eqb_eq in E. contradiction.
           ++ apply Z.eqb_neq in E. contradiction.
        -- right. repeat split; try assumption; lia.
Qed.

Section EarlyStopping.

Variable shuffle : Z -> list Example -> list Example.
Variable scores : Z -> Scores.
Variable batch_size : Z.
Variable examples : list Example.
Variable batches : list (list Example).

(** [random.shuffle] permutes: the list keeps its length. *)
Hypothesis shuffle_length :
  forall e l, List.length (shuffle e l) = List.length l.

(** The examples make at least one batch. *)
Hypothesis examples_batches : minibatch examples batch_size = Some batches.
Hypothesis some_batch : (0 < len batches)%Z.

(** The accuracy of the stream peaks at step 300: every other checkpoint is
    strictly below it. *)
Hypothesis peak_at_300 :
  forall s,
    (0 < s)%Z -> (s mod eval_every = 0)%Z -> s <> 300%Z ->
    (textcat_acc (scores s) < textcat_acc (scores 300))%Q.

Lemma after_epochs_initial :
  after_epochs scores examples batches 0 (initial examples).
Proof.
  unfold after_epochs, initial. simpl.
  repeat split; try lia; try contradiction.
Qed.

Lemma minibatch_shuffled (e : Z) (l : list Example) :
  List.length l = List.length examples ->
  exists batches',
    minibatch (shuffle e l) batch_size = Some batches'
    /\ len batches' = len batches.
Proof.
  intros Hl. pose proof examples_batches as Hb. unfold minibatch in *.
  destruct (batch_size <? 0)%Z; [discriminate |].
  injection Hb as <-. eexists. split; [reflexivity |].
  unfold len. f_equal. rewrite shuffle_length, Hl.
  apply slices_length. now rewrite shuffle_length.
Qed.

Lemma no_improvement_after (k : Z) (s : LoopState) :
  after_epochs scores examples batches k s ->
  no_improvement (results s) (step s) = (600 <=? step s)%Z.
Proof.
  intros (Hk & Hstep & _ & _ & Hin & Hall).
  unfold no_improvement.
  destruct (results s) as [| r rs] eqn:Hr.
  - symmetry. apply Z.leb_gt.
    destruct (Z.lt_ge_cases (step s) 600) as [H | H]; [assumption |].
    destruct (Hall 300%Z) as (c & [] & _); [lia | reflexivity].
  - destruct (py_max_spec (r :: rs)) as (best & Hb & Hbin & Hmax);
      [discriminate |].
    rewrite Hb.
    destruct (Hin best Hbin) as (B1 & B2 & B3).
    destruct (Z.lt_ge_cases 300 (step s)) as [H | H].
    + destruct (Hall 300%Z) as (c & Hc & Hc300); [lia | reflexivity |].
      destruct (Hin c Hc) as (_ & _ & C3).
      pose proof (tuple_ge_score best c (Hmax c Hc)) as Hle.
      rewrite C3, B3, Hc300 in Hle.
      assert (Hbest : cr_step best = 300%Z).
      { destruct (Z.eq_dec (cr_step best) 300) as [He | He]; [assumption |].
        pose proof (peak_at_300 (cr_step best)) as Hp.
        assert (Hlt : (textcat_acc (scores (cr_step best))
                       < textcat_acc (scores 300))%Q)
          by (apply Hp; [lia | assumption | assumption]).
        lra. }
      rewrite Hbest. unfold patience, eval_every.
      apply eq_true_iff_eq. rewrite !Z.leb_le.
      split; intros; Z.to_euclidean_division_equations; lia.
    + unfold patience, eval_every.
      apply eq_true_iff_eq. rewrite !Z.leb_le.
      split; intros; Z.to_euclidean_division_equations; lia.
Qed.

Lemma epoch_run (k : Z) (s : LoopState) :
  after_epochs scores examples batches k s ->
  exists batches' results',
    minibatch (shuffle (epoch s) (train_data s)) batch_size = Some batches'
    /\ train_batches (stream_evaluate scores) (epoch s) batches' (results s)
         (step s)
       = Some (results', (step s + len batches)%Z)
    /\ after_epochs scores examples batches (k + 1)
         {| train_data := shuffle (epoch s) (train_data s);
            results := results';
            epoch := epoch s + 1;
            step := step s + len batches |}.
Proof.
  intros (Hk & Hstep & Hepoch & Hlen & Hin & Hall).
  destruct (minibatch_shuffled (epoch s) (train_data s) Hlen)
    as (batches' & Hb & Hnb).
  destruct (train_batches_run scores (epoch s) batches' (results s) (step s))
    as (results' & Hrun & Hres).
  rewrite Hnb in Hrun, Hres.
  exists batches', results'. split; [assumption |]. split; [assumption |].
  unfold after_epochs. cbn [step epoch train_data results].
  pose proof some_batch as Hpos.
  repeat split.
  - lia.
  - lia.
  - lia.
  - now rewrite shuffle_length.
  - apply Hres in H. destruct H as [H | H]; [apply Hin in H |]; lia.
  - apply Hres in H. destruct H as [H | H]; [apply Hin in H |]; lia.
  - apply Hres in H. destruct H as [H | H]; [now apply Hin in H | tauto].
  - apply Hres in H. destruct H as [H | (_ & _ & _ & ->)];
      [now apply Hin in H | reflexivity].
  - intros n Hn Hmod.
    destruct (Z.lt_ge_cases n (step s)) as [Hlt | Hge].
    + destruct (Hall n) as (c & Hc & Hcn); [lia | assumption |].
      exists c. split; [apply Hres; now left | assumption].
    + exists (textcat_acc (scores n), n, epoch s). split; [| reflexivity].
      apply Hres. right. unfold cr_step. simpl.
      repeat split; try assumption; lia.
Qed.

Lemma epochs_to_600_bounds :
  (600 <= epochs_to_600 batches * len batches < 600 + len batches)%Z
  /\ (0 < epochs_to_600 batches)%Z.
Proof.
  pose proof some_batch as Hpos. unfold epochs_to_600.
  pose proof (Z.div_mod 599 (len batches)) as H1.
  pose proof (Z.mod_pos_bound 599 (len batches) Hpos) as H2.
  pose proof (Z.div_pos 599 (len batches)) as H3.
  nia.
Qed.

Lemma training_loop_run (d : nat) :
  forall (k : Z) (s : LoopState) (more : nat),
    after_epochs scores examples batches k s ->
    (k + Z.of_nat (S d) = epochs_to_600 batches)%Z ->
    exists s',
      training_loop shuffle (stream_evaluate scores) batch_size
        (S d + more) s = Stopped s'
      /\ after_epochs scores examples batches (epochs_to_600 batches) s'.
Proof.
  pose proof epochs_to_600_bounds as [HK _]. pose proof some_batch as Hpos.
  induction d as [| d IH]; intros k s more Hs Hk;
    destruct (epoch_run k s Hs) as (batches' & results' & H1 & H2 & H3);
    pose proof Hs as (_ & Hstep & _);
    pose proof (no_improvement_after _ _ H3) as Hstop;
    cbn [step results] in Hstop;
    cbn [Nat.add training_loop]; rewrite H1, H2, Hstop.
  - replace (k + 1)%Z with (epochs_to_600 batches) in H3 by lia.
    assert (Hge : (600 <=? step s + len batches)%Z = true).
    { apply Z.leb_le. rewrite Hstep. nia. }
    rewrite Hge. eexists. split; [reflexivity | assumption].
  - assert (Hlt : (600 <=? step s + len batches)%Z = false).
    { apply Z.leb_gt. rewrite Hstep. nia. }
    rewrite Hlt. apply (IH (k + 1)%Z); [assumption | lia].
Qed.

(** C2, as the code has it. With [eval_every = 100] and [patience = 3], on a
    stream of accuracies whose value at step 300 is strictly above every
    other checkpoint, the loop runs into [break] at the end of the first
    epoch that brings the step counter to 600 or more: the test
    [(step - best_step) // eval_every >= patience] is made once per epoch,
    with the checkpoint of step 300 as the best.  It stops at step 600
    exactly when the number of batches of an epoch divides 600. *)
Theorem stops_at_first_epoch_from_600 :
  forall more : nat,
    exists s,
      training_loop shuffle (stream_evaluate scores) batch_size
        (Z.to_nat (epochs_to_600 batches) + more) (initial examples)
      = Stopped s
      /\ step s = (epochs_to_600 batches * len batches)%Z
      /\ epoch s = epochs_to_600 batches
      /\ (600 <= step s < 600 + len batches)%Z
      /\ ((len batches | 600)%Z -> step s = 600%Z)
      /\ (exists best,
            py_max (results s) = Some best /\ cr_step best = 300%Z)
      /\ no_improvement (results s) (step s) = true
      /\ stops_at shuffle (stream_evaluate scores) batch_size
           (initial examples) (step s).
Proof.
  intros more.
  pose proof epochs_to_600_bounds as [HK HK0]. pose proof some_batch as Hpos.
  destruct (Z.to_nat (epochs_to_600 batches)) as [| d] eqn:Hd; [lia |].
  destruct (training_loop_run d 0 (initial examples) more after_epochs_initial)
    as (s & Hrun & Hs); [lia |].
  exists s. pose proof Hs as (_ & Hstep & Hepoch & _ & Hin & Hall).
  split; [assumption |]. split; [assumption |]. split; [assumption |].
  split; [rewrite Hstep; exact HK |]. split; [| split; [| split]].
  - intros (q & Hq). rewrite Hstep.
    destruct (Z.lt_trichotomy (epochs_to_600 batches) q) as [Hlt | [-> | Hgt]].
    + assert ((epochs_to_600 batches + 1) * len batches
              <= q * len batches)%Z
        by (apply Z.mul_le_mono_nonneg_r; lia).
      lia.
    + lia.
    + assert ((q + 1) * len batches
              <= epochs_to_600 batches * len batches)%Z
        by (apply Z.mul_le_mono_nonneg_r; lia).
      lia.
  - pose proof (no_improvement_after _ _ Hs) as Hstop.
    destruct (Hall 300%Z) as (c & Hc & Hc300); [lia | reflexivity |].
    destruct (py_max_spec (results s)) as (best & Hb & Hbin & Hmax).
    { intros Hnil. rewrite Hnil in Hc. contradiction. }
    exists best. split; [assumption |].
    destruct (Hin best Hbin) as (B1 & B2 & B3).
    destruct (Hin c Hc) as (_ & _ & C3).
    pose proof (tuple_ge_score best c (Hmax c Hc)) as Hle.
    rewrite C3, B3, Hc300 in Hle.
    destruct (Z.eq_dec (cr_step best) 300) as [He | He]; [assumption |].
    assert (Hlt : (textcat_acc (scores (cr_step best))
                   < textcat_acc (scores 300))%Q)
      by (apply peak_at_300; [lia | assumption | assumption]).
    lra.
  - rewrite (no_improvement_after _ _ Hs). apply Z.leb_le. lia.
  - exists (S d + more)%nat, s. split; [assumption | reflexivity].
Qed.

End EarlyStopping.

(** ** Runs of the loop on given streams *)

Lemma peak_then_flat_peak (s : Z) :
  (0 < s)%Z -> (s mod eval_every = 0)%Z -> s <> 300%Z ->
  (textcat_acc (peak_then_flat s) < textcat_acc (peak_then_flat 300))%Q.
Proof.
  intros _ _ Hs. unfold peak_then_flat.
  destruct (s <? 300)%Z; [reflexivity |].
  destruct (s =? 300)%Z eqn:E; [| reflexivity].
  apply Z.eqb_eq in E. contradiction.
Defined.

Lemma stops_at_first_epoch_from_600_witness :
  exists s,
    training_loop keep_order (stream_evaluate peak_then_flat) 1 6
      (initial (some_examples 100)) = Stopped s
    /\ step s = 600%Z
    /\ epoch s = 6%Z.
Proof.
  destruct (stops_at_first_epoch_from_600 keep_order peak_then_flat 1
              (some_examples 100) (slices 100 1 (some_examples 100))
              (fun e l => eq_refl) eq_refl eq_refl peak_then_flat_peak 0)
    as (s & H1 & H2 & H3 & _ & H5 & _).
  exists s. split; [exact H1 |]. split; [| exact H3].
  apply H5. exists 6%Z. reflexivity.
Defined.

(** C2 as stated fails when no epoch ends at step 600: with 250 batches to
    the epoch the test is made at steps 250, 500 and 750, and the loop, on a
    stream that peaks at step 300 and is flat and lower afterwards, stops at
    step 750 and not at step 600.  On a stream that keeps the accuracy it
    reached at step 300 the loop does not stop at step 600 either, even with
    100 batches to the epoch: it is still running at step 700. *)
Lemma not_stopped_at_600 :
  (stops_at keep_order (stream_evaluate peak_then_flat) 1
     (initial (some_examples 250)) 750
   /\ ~ stops_at keep_order (stream_evaluate peak_then_flat) 1
          (initial (some_examples 250)) 600)
  /\ ~ stops_at keep_order (stream_evaluate plateau) 1
         (initial (some_examples 100)) 600.
Proof.
  split.
  - assert (H : exists s,
               training_loop keep_order (stream_evaluate peak_then_flat) 1 3
                 (initial (some_examples 250)) = Stopped s
               /\ step s = 750%Z).
    { eexists. split; vm_compute; reflexivity. }
    destruct H as (s & Hs & Hstep). split.
    + exists 3%nat, s. split; assumption.
    + intros (epochs & s' & Hs' & Hstep').
      apply training_loop_more with (more := epochs) in Hs.
      apply training_loop_more with (more := 3%nat) in Hs'.
      rewrite Nat.add_comm in Hs'. rewrite Hs in Hs'.
      injection Hs' as <-. lia.
  - assert (H : exists s,
               training_loop keep_order (stream_evaluate plateau) 1 7
                 (initial (some_examples 100)) = Running s
               /\ step s = 700%Z).
    { eexists. split; vm_compute; reflexivity. }
    destruct H as (s & Hs & Hstep).
    intros (epochs & s' & Hs' & Hstep').
    pose proof (running_then_later _ _ _ _ _ _ Hs _ _ Hs') as Hle.
    lia.
Qed.

(** On a stream that reaches its best accuracy at step 300 and keeps it,
    each later checkpoint is taken as the best one, and the loop is still
    running after twenty epochs of a hundred batches. *)
Example plateau_keeps_running :
  exists s,
    training_loop keep_order (stream_evaluate plateau) 1 20
      (initial (some_examples 100)) = Running s
    /\ step s = 2000%Z.
Proof. eexists. split; vm_compute; reflexivity. Qed.

(** * Further properties of the code *)

(** ** [_prepare_partition] and [load_data] at the edges *)

Lemma prepare_partition_none (pp : Text -> Text) (rows : list (Label * Text))
    (preprocess : bool) (label_list : list Label) :
  _prepare_partition pp rows preprocess label_list = None <-> rows = [].
Proof.
  unfold _prepare_partition, unzip_rows. destruct rows as [| r rows].
  - split; reflexivity.
  - split; discriminate.
Qed.

(** [load_data] raises exactly when one of the two dataframes has no row:
    the unpacking of the transposed rows needs at least one. *)
Theorem load_data_none_iff (pp : Text -> Text) (tr ev : DataFrame)
    (label_list : list Label) :
  load_data pp tr ev label_list = None <-> tr = [] \/ ev = [].
Proof.
  unfold load_data, itertuples.
  destruct (_prepare_partition pp tr false label_list) as [a |] eqn:Ea.
  - destruct (_prepare_partition pp ev false label_list) as [b |] eqn:Eb.
    + split; [discriminate |]. intros [H | H].
      * apply (prepare_partition_none pp tr false label_list) in H. congruence.
      * apply (prepare_partition_none pp ev false label_list) in H. congruence.
    + split; [| reflexivity]. intros _. right.
      now apply (prepare_partition_none pp ev false label_list).
  - split; [| reflexivity]. intros _. left.
    now apply (prepare_partition_none pp tr false label_list).
Qed.

Lemma length_unique (xs : list string) :
  (List.length (unique xs) <= List.length xs)%nat.
Proof.
  induction xs as [| x xs IH] using rev_ind; [apply Nat.le_refl |].
  rewrite unique_snoc, length_app. unfold unique_step. simpl.
  destruct (mem_str x (unique xs)); [| rewrite length_app; simpl]; lia.
Qed.

(** The keys of a one-hot dictionary are the distinct labels of the list, in
    order of first appearance, whatever the record's label: a label that
    comes twice in the list makes one key. *)
Theorem one_hot_keys (label_list : list Label) (y : Label) :
  Dict.keys (one_hot label_list y) = unique label_list
  /\ NoDup (Dict.keys (one_hot label_list y))
  /\ (List.length (one_hot label_list y) <= List.length label_list)%nat
  /\ forall l, In l label_list ->
       Dict.get l (one_hot label_list y)
       = Some (if String.eqb l y then 1%Q else 0%Q).
Proof.
  rewrite one_hot_tabulate. unfold Dict.keys.
  rewrite map_map, length_map. simpl. rewrite map_id.
  repeat split.
  - apply NoDup_unique.
  - apply length_unique.
  - intros l Hl. rewrite (get_tabulate (indicator y)); [reflexivity |].
    now apply In_unique.
Qed.

Lemma tabulate_keys {V} (g : string -> V) (ks : list string) :
  Dict.keys (map (fun k => (k, g k)) ks) = ks.
Proof. unfold Dict.keys. rewrite map_map. apply map_id. Qed.

Lemma tabulate_values {V} (g : string -> V) (ks : list string) :
  Dict.values (map (fun k => (k, g k)) ks) = map g ks.
Proof. unfold Dict.values. now rewrite map_map. Qed.

Lemma indicator_absent_zero (y : Label) (l : list Label) :
  ~ In y l -> Forall (fun i => indicator y i = 0%Q) l.
Proof.
  intros H. apply Forall_forall. intros i Hi. unfold indicator.
  destruct (String.eqb i y) eqn:E; [| reflexivity].
  apply String.eqb_eq in E. now subst.
Qed.

(** A record whose label is not in the label list does not make
    [_prepare_partition] raise: it gets the distribution that is 0.0 at
    every label of the list. *)
Theorem prepare_partition_unknown_label (pp : Text -> Text)
    (rows : list (Label * Text)) (label_list : list Label) :
  rows <> [] ->
  exists texts cats,
    _prepare_partition pp rows false label_list = Some (texts, cats)
    /\ forall i r, nth_error rows i = Some r -> ~ In (label r) label_list ->
         exists c, nth_error cats i = Some c
                   /\ Dict.keys c = unique label_list
                   /\ Forall (fun p => p = 0%Q) (Dict.values c)
                   /\ ones c = 0%nat
                   /\ (total c == 0)%Q.
Proof.
  intros Hne. eexists. eexists.
  split; [apply prepare_partition_some; assumption |].
  intros i r Hr Hin. exists (one_hot label_list (label r)).
  split; [now rewrite nth_error_map, Hr |].
  assert (Hu : ~ In (label r) (unique label_list)) by now rewrite In_unique.
  rewrite one_hot_tabulate. unfold ones, total.
  rewrite (tabulate_keys (indicator (label r))).
  rewrite (tabulate_values (indicator (label r))).
  destruct (indicator_absent (label r) (unique label_list) Hu) as [H1 H2].
  repeat split.
  - apply Forall_map. now apply indicator_absent_zero.
  - exact (f_equal (@List.length Q) H2).
  - exact H1.
Qed.

Lemma prepare_partition_unknown_label_witness :
  exists texts cats,
    _prepare_partition (fun t => t) [("panorama", "x")] false
      ["sport"; "web"] = Some (texts, cats)
    /\ forall i r,
         nth_error [("panorama", "x")] i = Some r ->
         ~ In (label r) ["sport"; "web"] ->
         exists c, nth_error cats i = Some c
                   /\ Dict.keys c = unique ["sport"; "web"]
                   /\ Forall (fun p => p = 0%Q) (Dict.values c)
                   /\ ones c = 0%nat
                   /\ (total c == 0)%Q.
Proof.
  apply (prepare_partition_unknown_label (fun t => t)). discriminate.
Defined.

(** ** [find_max_prob_cat] *)

(** [find_max_prob_cat] raises on the empty dictionary only, and the label it
    returns is a key of the dictionary. *)
Theorem find_max_prob_cat_key (c : Cats) :
  (find_max_prob_cat c = None <-> c = [])
  /\ forall l, find_max_prob_cat c = Some l -> In l (Dict.keys c).
Proof.
  destruct c as [| kv c].
  - split; [split; reflexivity | discriminate].
  - destruct (find_max_prob_cat_first_argmax (kv :: c)) as (l & Hl & i & _ & Hk);
      [discriminate |].
    rewrite Hl. split; [split; discriminate |].
    intros l' H. injection H as <-. now apply nth_error_In with i.
Qed.

Lemma unique_head (a : string) (xs : list string) :
  exists t, unique (a :: xs) = a :: t.
Proof.
  unfold unique. simpl. unfold unique_step at 2. simpl.
  generalize (@nil string).
  induction xs as [| x xs IH]; intros acc; simpl.
  - now exists acc.
  - unfold unique_step at 2.
    destruct (mem_str x (a :: acc)); [apply IH |]. apply (IH (acc ++ [x])).
Qed.

Lemma argmax_of_one_hot (label_list : list Label) (y : Label) :
  In y label_list ->
  find_max_prob_cat (one_hot label_list y) = Some y.
Proof.
  intros Hy. rewrite one_hot_tabulate.
  apply In_unique in Hy. set (U := unique label_list) in *.
  destruct (find_max_prob_cat_first_argmax
              (map (fun i => (i, indicator y i)) U))
    as (l & Hl & i & (p & Hp & Hle & _) & Hk).
  { destruct U; [contradiction | discriminate]. }
  rewrite Hl. f_equal.
  rewrite (tabulate_keys (indicator y)) in Hk.
  rewrite (tabulate_values (indicator y)) in Hp, Hle.
  rewrite nth_error_map, Hk in Hp. injection Hp as <-.
  destruct (In_nth_error U y Hy) as (j & Hj).
  assert (H1 : (indicator y y <= indicator y l)%Q).
  { apply (Hle j). now rewrite nth_error_map, Hj. }
  unfold indicator in H1. rewrite String.eqb_refl in H1.
  destruct (String.eqb l y) eqn:E; [now apply String.eqb_eq |].
  exfalso. apply (Qlt_not_le 0 1); [reflexivity | exact H1].
Qed.

(** The label of a record is read back from its one-hot dictionary: the
    arg-max of the distribution built for a label of the list is that
    label. *)
Theorem find_max_prob_cat_one_hot (label_list : list Label) (y : Label) :
  In y label_list ->
  find_max_prob_cat (one_hot label_list y) = Some y.
Proof.
  intros Hy. destruct (In_dec string_dec y label_list) as [H | H].
  - now apply argmax_of_one_hot.
  - contradiction.
Qed.

Lemma find_max_prob_cat_one_hot_witness :
  find_max_prob_cat (one_hot ["sport"; "web"; "sport"] "web") = Some "web".
Proof.
  apply find_max_prob_cat_one_hot. simpl. tauto.
Defined.

(** For a record whose label is not in the label list the distribution is
    all zeros, and its arg-max is the first label of the list: the
    evaluation takes that label as the true one. *)
Theorem find_max_prob_cat_unknown (first : Label) (others : list Label)
    (y : Label) :
  ~ In y (first :: others) ->
  find_max_prob_cat (one_hot (first :: others) y) = Some first.
Proof.
  intros Hy. rewrite one_hot_tabulate.
  assert (Hu : ~ In y (unique (first :: others))) by now rewrite In_unique.
  unfold Label in *.
  destruct (unique_head first others) as (t & Ht). rewrite Ht in Hu |- *.
  match goal with
  | |- find_max_prob_cat ?c = _ =>
      destruct (find_max_prob_cat_first_argmax c)
        as (l & Hl & i & (p & Hp & _ & Hlt) & Hk); [discriminate |]
  end.
  rewrite Hl. f_equal.
  rewrite (tabulate_keys (indicator y)) in Hk.
  rewrite (tabulate_values (indicator y)) in Hp, Hlt.
  pose proof (indicator_absent_zero y (first :: t) Hu) as Hz.
  rewrite Forall_forall in Hz.
  destruct i as [| i]; [simpl in Hk; now injection Hk |].
  exfalso.
  rewrite nth_error_map in Hp.
  destruct (nth_error (first :: t) (S i)) as [k |] eqn:Ek; [| discriminate].
  injection Hp as <-.
  assert (H0 : (indicator y first < indicator y k)%Q).
  { apply (Hlt 0%nat); [lia | reflexivity]. }
  rewrite (Hz first), (Hz k) in H0.
  - discriminate H0.
  - now apply nth_error_In with (S i).
  - now left.
Qed.

Lemma find_max_prob_cat_unknown_witness :
  find_max_prob_cat (one_hot ["sport"; "web"] "panorama") = Some "sport".
Proof.
  apply find_max_prob_cat_unknown. simpl. intuition discriminate.
Defined.

(** ** [evaluate_multiclass] *)

Lemma find_max_prob_cat_some (c : Cats) :
  c <> [] -> exists l, find_max_prob_cat c = Some l.
Proof.
  intros H. destruct (find_max_prob_cat_first_argmax c H) as (l & Hl & _).
  now exists l.
Qed.

Lemma count_correct_defined (nlp_cats : Text -> Cats) (texts : list Text) :
  forall (cats seen : list Cats) (correct : Z),
    count_correct nlp_cats (seen ++ cats) (List.length seen) texts correct
    <> None
    <-> (List.length texts <= List.length cats)%nat
        /\ Forall (fun c => c <> []) (firstn (List.length texts) cats)
        /\ Forall (fun text => nlp_cats text <> []) texts.
Proof.
  induction texts as [| text texts IH]; intros cats seen correct;
    cbn [count_correct List.length firstn].
  - split; [intros _ | discriminate]. repeat split; [lia | |]; constructor.
  - destruct cats as [| c cats].
    + rewrite app_nil_r.
      replace (nth_error seen (List.length seen)) with (@None Cats)
        by (symmetry; apply nth_error_None; lia).
      split; [congruence |]. cbn [List.length]. intros (H & _). lia.
    + rewrite nth_error_app2, Nat.sub_diag by lia. cbn [nth_error List.length].
      destruct (find_max_prob_cat c) as [tl |] eqn:Et.
      * destruct (find_max_prob_cat (nlp_cats text)) as [pl |] eqn:Ep.
        -- replace (seen ++ c :: cats) with ((seen ++ [c]) ++ cats)
             by now rewrite <- app_assoc.
           replace (S (List.length seen)) with (List.length (seen ++ [c]))
             by (rewrite length_app; simpl; lia).
           rewrite IH. split.
           ++ intros (H1 & H2 & H3). repeat split; [lia | |].
              ** constructor; [| assumption]. intros ->. discriminate.
              ** constructor; [| assumption]. intros E. rewrite E in Ep.
                 discriminate.
           ++ intros (H1 & H2 & H3).
              inversion H2; inversion H3; subst. repeat split; [lia | |];
                assumption.
        -- split; [congruence |]. intros (_ & _ & H3).
           inversion H3 as [| t ts Ht _]; subst.
           destruct (find_max_prob_cat_some _ Ht) as (l & Hl). congruence.
      * split; [congruence |]. intros (_ & H2 & _).
        inversion H2 as [| c' cs Hc _]; subst.
        destruct (find_max_prob_cat_some _ Hc) as (l & Hl). congruence.
Qed.

(** When [evaluate_multiclass] returns and when it raises: it returns
    exactly when there is a text, there are at least as many true
    distributions as texts, and neither the true distributions of the texts
    nor the predicted ones are empty.  True distributions beyond the last
    text are not looked at. *)
Theorem evaluate_multiclass_defined (nlp_cats : Text -> Cats)
    (texts : list Text) (cats : list Cats) :
  evaluate_multiclass nlp_cats texts cats <> None
  <-> texts <> []
      /\ (List.length texts <= List.length cats)%nat
      /\ Forall (fun c => c <> []) (firstn (List.length texts) cats)
      /\ Forall (fun text => nlp_cats text <> []) texts.
Proof.
  pose proof (count_correct_defined nlp_cats texts cats [] 0%Z) as H.
  cbn [app List.length] in H. unfold evaluate_multiclass.
  destruct (count_correct nlp_cats cats 0 texts 0) as [n |].
  - destruct texts as [| t texts].
    + simpl. split; [congruence | intros (Hne & _); congruence].
    + replace (len (t :: texts) =? 0)%Z with false
        by (symmetry; apply Z.eqb_neq; unfold len; simpl; lia).
      split.
      * intros _. split; [discriminate |]. apply H. discriminate.
      * discriminate.
  - split; [congruence |]. intros (_ & H1). apply H in H1. congruence.
Qed.

Lemma count_correct_bounds (nlp_cats : Text -> Cats) (cats : list Cats)
    (texts : list Text) :
  forall (i : nat) (correct n : Z),
    count_correct nlp_cats cats i texts correct = Some n ->
    (correct <= n <= correct + len texts)%Z.
Proof.
  unfold len.
  induction texts as [| text texts IH]; intros i correct n H;
    cbn [count_correct List.length] in *.
  - injection H as <-. lia.
  - destruct (nth_error cats i) as [c |]; [| discriminate].
    destruct (find_max_prob_cat c) as [tl |]; [| discriminate].
    destruct (find_max_prob_cat (nlp_cats text)) as [pl |]; [| discriminate].
    apply IH in H. destruct (String.eqb tl pl); lia.
Qed.

(** Whatever the texts and the distributions, the scores
    [evaluate_multiclass] returns are consistent: the right and the wrong
    ones are counts that add up to the number of texts, and the accuracy is
    the share of the right ones, between 0 and 1. *)
Theorem evaluate_multiclass_bounds (nlp_cats : Text -> Cats)
    (texts : list Text) (cats : list Cats) (scores : Scores) :
  evaluate_multiclass nlp_cats texts cats = Some scores ->
  (0 < len texts)%Z
  /\ (0 <= textcat_cor scores <= len texts)%Z
  /\ (0 <= textcat_wrg scores <= len texts)%Z
  /\ (textcat_cor scores + textcat_wrg scores = len texts)%Z
  /\ textcat_acc scores
     = (inject_Z (textcat_cor scores) / inject_Z (len texts))%Q
  /\ (0 <= textcat_acc scores <= 1)%Q.
Proof.
  unfold evaluate_multiclass. intros H.
  destruct (count_correct nlp_cats cats 0 texts 0) as [n |] eqn:E;
    [| discriminate].
  apply count_correct_bounds in E.
  destruct (len texts =? 0)%Z eqn:Ez; [discriminate |].
  apply Z.eqb_neq in Ez. injection H as <-. simpl.
  assert (Hpos : (0 < len texts)%Z) by (unfold len in *; lia).
  assert (HposQ : (0 < inject_Z (len texts))%Q)
    by (change 0%Q with (inject_Z 0); rewrite <- Zlt_Qlt; exact Hpos).
  repeat split; try lia.
  - apply Qle_shift_div_l; [exact HposQ |]. rewrite Qmult_0_l.
    change 0%Q with (inject_Z 0). rewrite <- Zle_Qle. lia.
  - apply Qle_shift_div_r; [exact HposQ |]. rewrite Qmult_1_l.
    rewrite <- Zle_Qle. lia.
Qed.

Lemma evaluate_multiclass_bounds_witness :
  (0 < len ["goal"; "site"])%Z
  /\ (0 <= 1 <= len ["goal"; "site"])%Z
  /\ (0 <= 1 <= len ["goal"; "site"])%Z
  /\ (1 + 1 = len ["goal"; "site"])%Z
  /\ (1 / 2 = inject_Z 1 / inject_Z (len ["goal"; "site"]))%Q
  /\ (0 <= 1 / 2 <= 1)%Q.
Proof.
  exact (evaluate_multiclass_bounds
           (fun text => if String.eqb text "goal" then
                          [("web", 1 # 4); ("sport", 3 # 4)]
                        else [("web", 1 # 2); ("sport", 1 # 2)])
           ["goal"; "site"]
           [ [("web", 0); ("sport", 1)]; [("web", 0); ("sport", 1)] ]
           {| textcat_acc := 1 / 2; textcat_cor := 1; textcat_wrg := 1 |}
           eq_refl).
Defined.

Lemma count_correct_rows (nlp_cats : Text -> Cats) (label_list : list Label)
    (rows : DataFrame) :
  forall (seen : list Cats) (correct : Z),
    (forall r, In r rows -> In (label r) label_list) ->
    (forall r, In r rows -> nlp_cats (article r) <> []) ->
    count_correct nlp_cats
      (seen ++ map (fun r => one_hot label_list (fst r)) rows)
      (List.length seen) (map snd rows) correct
    = Some (correct + correct_rows nlp_cats rows)%Z.
Proof.
  unfold correct_rows, len.
  induction rows as [| r rows IH]; intros seen correct Hl Hp;
    cbn [map count_correct filter List.length].
  - f_equal. lia.
  - rewrite nth_error_app2, Nat.sub_diag by lia. cbn [nth_error].
    rewrite (argmax_of_one_hot label_list (fst r))
      by (apply (Hl r); now left).
    destruct (find_max_prob_cat_some (nlp_cats (snd r))) as (pl & Hpl).
    { apply (Hp r). now left. }
    rewrite Hpl.
    replace (seen ++ one_hot label_list (fst r)
                     :: map (fun r0 => one_hot label_list (fst r0)) rows)
      with ((seen ++ [one_hot label_list (fst r)])
            ++ map (fun r0 => one_hot label_list (fst r0)) rows)
      by now rewrite <- app_assoc.
    replace (S (List.length seen))
      with (List.length (seen ++ [one_hot label_list (fst r)]))
      by (rewrite length_app; simpl; lia).
    rewrite IH;
      [| intros; apply Hl; now right | intros; apply Hp; now right].
    unfold predicted_right at 2. unfold article, label. rewrite Hpl.
    f_equal. destruct (String.eqb (fst r) pl); cbn [List.length]; lia.
Qed.

(** From the rows to the scores.  When the labels of a partition are in the
    label list and the model answers every article with a distribution that
    is not empty, the evaluation of what [_prepare_partition] makes of the
    partition counts as right exactly the rows whose label is the arg-max
    label of the prediction for their article. *)
Theorem evaluate_prepared_partition (pp : Text -> Text)
    (nlp_cats : Text -> Cats) (label_list : list Label) (rows : DataFrame)
    (texts : list Text) (cats : list Cats) :
  _prepare_partition pp (itertuples rows) false label_list
  = Some (texts, cats) ->
  (forall r, In r rows -> In (label r) label_list) ->
  (forall r, In r rows -> nlp_cats (article r) <> []) ->
  evaluate_multiclass nlp_cats texts cats
  = Some {| textcat_acc :=
              inject_Z (correct_rows nlp_cats rows) / inject_Z (len rows);
            textcat_cor := correct_rows nlp_cats rows;
            textcat_wrg := len rows - correct_rows nlp_cats rows |}.
Proof.
  intros Hprep Hl Hp. unfold itertuples in Hprep.
  assert (Hne : rows <> []).
  { intros ->. discriminate. }
  rewrite (prepare_partition_some pp rows label_list Hne) in Hprep.
  injection Hprep as <- <-.
  unfold evaluate_multiclass.
  pose proof (count_correct_rows nlp_cats label_list rows [] 0%Z Hl Hp) as H.
  cbn [app List.length] in H. rewrite H. cbn [Z.add].
  assert (Hlen : len (map snd rows) = len rows)
    by (unfold len; now rewrite length_map).
  rewrite Hlen.
  replace (len rows =? 0)%Z with false; [reflexivity |].
  symmetry. apply Z.eqb_neq. unfold len. destruct rows; [contradiction |].
  simpl. lia.
Qed.

Lemma evaluate_prepared_partition_witness :
  evaluate_multiclass (fun _ => [("web", 1 # 4); ("sport", 3 # 4)])
    ["t4"; "t5"]
    [one_hot ["web"; "sport"] "sport"; one_hot ["web"; "sport"] "web"]
  = Some {| textcat_acc := inject_Z 1 / inject_Z 2;
            textcat_cor := 1;
            textcat_wrg := 2 - 1 |}.
Proof.
  apply (evaluate_prepared_partition (fun t => t)
           (fun _ => [("web", 1 # 4); ("sport", 3 # 4)]) ["web"; "sport"]
           [("sport", "t4"); ("web", "t5")]).
  - reflexivity.
  - intros r [<- | [<- | []]]; simpl; tauto.
  - intros r _. discriminate.
Defined.

(** ** The dictionary of the Markdown export *)

Lemma flat_map_agree {A B} (f g : A -> list B) (l : list A) :
  (forall a, In a l -> f a = g a) -> flat_map f l = flat_map g l.
Proof.
  induction l as [| a l IH]; intros H; cbn [flat_map]; [reflexivity |].
  rewrite (H a) by now left. f_equal. apply IH. intros b Hb. apply H.
  now right.
Qed.

Lemma flat_map_tagged {A} (f : string -> list A) (l : string) (a : A)
    (ks : list string) :
  NoDup ks -> In l ks ->
  Permutation
    (flat_map (fun k => f k ++ (if String.eqb l k then [a] else [])) ks)
    (flat_map f ks ++ [a]).
Proof.
  induction 1 as [| k ks Hk Hks IH]; intros Hl; [contradiction |].
  cbn [flat_map]. destruct (String.eqb l k) eqn:E.
  - apply String.eqb_eq in E. subst k.
    rewrite (flat_map_agree _ f).
    + rewrite <- !app_assoc. apply Permutation_app_head.
      apply Permutation_app_comm.
    + intros k' Hk'. destruct (String.eqb l k') eqn:E'.
      * apply String.eqb_eq in E'. now subst.
      * apply app_nil_r.
  - destruct Hl as [-> | Hl]; [now rewrite String.eqb_refl in E |].
    rewrite app_nil_r, <- app_assoc. apply Permutation_app_head. now apply IH.
Qed.

(** No record is lost or written twice by the export: the lists of articles
    that the [iterrows] loop collects, label after label, hold the articles
    of the dataframe, each as often as it occurs; and the labels they stand
    under are the distinct labels of the dataframe. *)
Theorem label_samples_complete (df : DataFrame) :
  let label_samples := fold_left add_sample df Dict.empty in
  Permutation (List.concat (Dict.values label_samples)) (map article df)
  /\ Dict.keys label_samples = unique (label_column df)
  /\ (forall l, Dict.get l label_samples
                = if mem_str l (label_column df)
                  then Some (articles_of df l) else None)
  /\ forall l articles, Dict.get l label_samples = Some articles ->
                        articles <> [].
Proof.
  cbv zeta. rewrite label_samples_tabulate.
  rewrite (tabulate_keys (articles_of df)), (tabulate_values (articles_of df)).
  rewrite <- flat_map_concat_map.
  assert (Hget : forall l,
             Dict.get l (map (fun l0 => (l0, articles_of df l0))
                           (unique (label_column df)))
             = if mem_str l (label_column df)
               then Some (articles_of df l) else None).
  { intros l. destruct (mem_str l (label_column df)) eqn:E.
    - apply (get_tabulate (articles_of df)). apply In_unique.
      now apply mem_str_In.
    - apply (get_tabulate_absent (articles_of df)). rewrite In_unique.
      now apply mem_str_not_In. }
  split; [| split; [reflexivity | split; [exact Hget |]]].
  - clear Hget.
    induction df as [| r df IH] using rev_ind; [apply perm_nil |].
    unfold label_column. rewrite !map_app. cbn [map].
    fold (label_column df). rewrite unique_snoc. unfold unique_step.
    destruct (mem_str (label r) (unique (label_column df))) eqn:E.
    + rewrite (flat_map_ext _ (fun k => articles_of df k
                 ++ (if String.eqb (label r) k then [article r] else [])))
        by (intros k; apply articles_of_snoc).
      eapply perm_trans.
      * apply flat_map_tagged; [apply NoDup_unique | now apply mem_str_In].
      * now apply Permutation_app_tail.
    + rewrite flat_map_app. cbn [flat_map]. rewrite app_nil_r.
      rewrite articles_of_snoc, String.eqb_refl.
      rewrite (articles_of_absent df (label r))
        by (apply mem_str_not_In in E; now rewrite In_unique in E).
      cbn [app]. apply Permutation_app; [| apply Permutation_refl].
      rewrite (flat_map_agree _ (articles_of df)); [exact IH |].
      intros k Hk. rewrite articles_of_snoc.
      destruct (String.eqb (label r) k) eqn:E'; [| apply app_nil_r].
      apply String.eqb_eq in E'. subst k. apply mem_str_not_In in E.
      contradiction.
  - intros l articles H. rewrite Hget in H.
    destruct (mem_str l (label_column df)) eqn:E; [| discriminate].
    injection H as <-. apply mem_str_In in E.
    unfold label_column in E. apply in_map_iff in E.
    destruct E as (r & Hr & Hin). unfold articles_of. intros Hnil.
    assert (Hf : In r (filter (fun r0 => String.eqb (label r0) l) df)).
    { apply filter_In. split; [assumption |]. rewrite Hr.
      apply String.eqb_refl. }
    apply (in_map article) in Hf. rewrite Hnil in Hf. contradiction.
Qed.

(** ** The files and the exit of [main] *)

Lemma get_set_neq {V} (k k' : string) (v : V) (d : Dict.t V) :
  k <> k' -> Dict.get k (Dict.set k' v d) = Dict.get k d.
Proof.
  intros H. apply get_set_other. now apply String.eqb_neq.
Qed.

Lemma exported_other (df tr ev dv : DataFrame) (fs : FileSystem)
    (name : string) :
  ~ In name written_files ->
  Dict.get name (exported df tr ev dv fs) = Dict.get name fs.
Proof.
  intros H. unfold written_files in H. simpl in H.
  unfold exported, create_rasa_dev_set, create_rasa_test_set,
    create_rasa_training_set.
  rewrite !get_set_neq; [reflexivity | | | | | | |]; intros E; apply H;
    rewrite E; tauto.
Qed.

(** A run without an output directory ([output_dir] is [None]: no
    directory is made and the model is not saved) writes to seven files
    under [data/] and to no other: also when it raises, every other file is
    as it was. *)
Theorem main_leaves_other_files (w : World) (model : string)
    (output_dir : option string) (n_iter batch_size : Z) (learn_rate : Q)
    (sentence_split : bool) (epochs : nat) (fs : FileSystem)
    (name : string) :
  output_dir = None ->
  ~ In name written_files ->
  Dict.get name
    (fst (main w model output_dir n_iter batch_size learn_rate
            sentence_split epochs fs))
  = Dict.get name fs
  /\ forall r,
       snd (main w model output_dir n_iter batch_size learn_rate
              sentence_split epochs fs) = Finished r ->
       saved_to r = None.
Proof.
  intros Hout H. split.
  - destruct (read_csv w) as [df |] eqn:E0;
      [| unfold main; now rewrite E0].
    destruct (train_test_split w df (4 # 10) (label_column df))
      as [[tr rest] |] eqn:E1; [| unfold main; now rewrite E0, E1].
    destruct (train_test_split w rest (5 # 10) (label_column rest))
      as [[ev dv] |] eqn:E2; [| unfold main; now rewrite E0, E1, E2].
    rewrite (main_files w model output_dir n_iter batch_size learn_rate
               sentence_split epochs fs df tr rest ev dv E0 E1 E2).
    now apply exported_other.
  - intros r Hr. unfold main in Hr.
    destruct (read_csv w) as [df |]; [| discriminate].
    destruct (train_test_split w df _ _) as [[tr rest] |]; [| discriminate].
    destruct (train_test_split w rest _ _) as [[ev dv] |]; [| discriminate].
    simpl in Hr.
    destruct load_data as [[[t1 c1] [t2 c2]] |]; [| discriminate].
    destruct (if sentence_split then _ else _) as [t1' c1'].
    destruct (batch_size =? 0)%Z; [discriminate |].
    destruct training_loop; try discriminate.
    injection Hr as <-. exact Hout.
Qed.

Lemma main_leaves_other_files_witness :
  Dict.get "logging.conf"
    (fst (main (sample_world even_articles) "bert" None 4 24 (2 # 100000)
            false 0 [("logging.conf", Markdown "[loggers]")]))
  = Dict.get "logging.conf" [("logging.conf", Markdown "[loggers]")].
Proof.
  apply (main_leaves_other_files (sample_world even_articles) "bert" None 4
           24 (2 # 100000) false 0 [("logging.conf", Markdown "[loggers]")]
           "logging.conf" eq_refl).
  unfold written_files. simpl. intuition discriminate.
Defined.

(** When the CSV cannot be read or one of the two splits raises, [main]
    fails before it has written anything. *)
Theorem main_fails_before_writing (w : World) (model : string)
    (output_dir : option string) (n_iter batch_size : Z) (learn_rate : Q)
    (sentence_split : bool) (epochs : nat) (fs : FileSystem) :
  read_csv w = None
  \/ (exists df,
        read_csv w = Some df
        /\ (train_test_split w df (4 # 10) (label_column df) = None
            \/ exists tr rest,
                 train_test_split w df (4 # 10) (label_column df)
                 = Some (tr, rest)
                 /\ train_test_split w rest (5 # 10) (label_column rest)
                    = None)) ->
  main w model output_dir n_iter batch_size learn_rate sentence_split
    epochs fs
  = (fs, Failed).
Proof.
  unfold main.
  intros [E0 | (df & E0 & [E1 | (tr & rest & E1 & E2)])].
  - now rewrite E0.
  - now rewrite E0, E1.
  - now rewrite E0, E1, E2.
Qed.

Lemma main_fails_before_writing_witness :
  main no_articles "bert" None 4 24 (2 # 100000) false 5 [] = ([], Failed).
Proof.
  apply main_fails_before_writing. left. reflexivity.
Defined.

Lemma exported_get (df tr ev dv : DataFrame) (fs : FileSystem) :
  Dict.get "data/test.json" (exported df tr ev dv fs) = Some (JsonRows ev)
  /\ Dict.get "data/dev.json" (exported df tr ev dv fs) = Some (JsonRows dv)
  /\ Dict.get "data/train.md" (exported df tr ev dv fs)
     = Some (Markdown (md_document tr))
  /\ Dict.get "data/test.md" (exported df tr ev dv fs)
     = Some (Markdown (md_document ev))
  /\ Dict.get "data/dev.md" (exported df tr ev dv fs)
     = Some (Markdown (md_document dv)).
Proof.
  unfold exported, create_rasa_dev_set, create_rasa_test_set,
    create_rasa_training_set.
  rewrite !markdown_of_label_samples.
  repeat split.
  - rewrite !(get_set_other "data/test.json") by reflexivity.
    apply get_set_same.
  - rewrite !(get_set_other "data/dev.json") by reflexivity.
    apply get_set_same.
  - rewrite !(get_set_other "data/train.md") by reflexivity.
    apply get_set_same.
  - rewrite !(get_set_other "data/test.md") by reflexivity.
    apply get_set_same.
  - rewrite !(get_set_other "data/dev.md") by reflexivity.
    apply get_set_same.
Qed.

(** The exports of a run.  Once the CSV is read and split, the three JSON
    files hold the rows of the three partitions and the three Markdown files
    their documents, whatever becomes of the training; by what the splitter
    guarantees, the rows of the three JSON files together are the rows of
    the CSV, each once. *)
Theorem main_exports (w : World) (model : string)
    (output_dir : option string) (n_iter batch_size : Z) (learn_rate : Q)
    (sentence_split : bool) (epochs : nat) (fs : FileSystem)
    (df tr rest ev dv : DataFrame) :
  splits_rows (train_test_split w) ->
  read_csv w = Some df ->
  train_test_split w df (4 # 10) (label_column df) = Some (tr, rest) ->
  train_test_split w rest (5 # 10) (label_column rest) = Some (ev, dv) ->
  let files := fst (main w model output_dir n_iter batch_size learn_rate
                      sentence_split epochs fs) in
  Dict.get "data/train.json" files = Some (JsonRows tr)
  /\ Dict.get "data/test.json" files = Some (JsonRows ev)
  /\ Dict.get "data/dev.json" files = Some (JsonRows dv)
  /\ Dict.get "data/train.md" files = Some (Markdown (md_document tr))
  /\ Dict.get "data/test.md" files = Some (Markdown (md_document ev))
  /\ Dict.get "data/dev.md" files = Some (Markdown (md_document dv))
  /\ Permutation df (tr ++ ev ++ dv).
Proof.
  intros Hs E0 E1 E2 files. subst files.
  rewrite (main_files w model output_dir n_iter batch_size learn_rate
             sentence_split epochs fs df tr rest ev dv E0 E1 E2).
  destruct (exported_get df tr ev dv fs) as (G1 & G2 & G3 & G4 & G5).
  rewrite exported_train.
  repeat split; try assumption.
  apply Hs in E1. apply Hs in E2.
  apply perm_trans with (tr ++ rest); [assumption |].
  now apply Permutation_app_head.
Qed.

Lemma main_exports_witness :
  Dict.get "data/dev.json"
    (fst (main (sample_world even_articles) "bert" None 4 0 (2 # 100000)
            false 0 []))
  = Some (JsonRows [("web", "t5")])
  /\ Permutation even_articles
       ([("web", "t1"); ("sport", "t2"); ("web", "t3")]
        ++ [("sport", "t4")] ++ [("web", "t5")]).
Proof.
  destruct (main_exports (sample_world even_articles) "bert" None 4 0
              (2 # 100000) false 0 [] even_articles
              [("web", "t1"); ("sport", "t2"); ("web", "t3")]
              [("sport", "t4"); ("web", "t5")]
              [("sport", "t4")] [("web", "t5")]
              split_in_order_splits_rows eq_refl eq_refl eq_refl)
    as (_ & _ & H3 & _ & _ & _ & H7).
  split; assumption.
Defined.

Lemma training_loop_negative_size
    (shuffle : Z -> list Example -> list Example)
    (evaluate : Z -> option Scores) (batch_size : Z) (epochs : nat)
    (s s' : LoopState) :
  (batch_size < 0)%Z ->
  training_loop shuffle evaluate batch_size epochs s <> Stopped s'.
Proof.
  intros Hneg. destruct epochs as [| epochs]; simpl; [discriminate |].
  unfold minibatch. apply Z.ltb_lt in Hneg. rewrite Hneg. discriminate.
Qed.

(** A batch size of zero or less never gives a trained model: [main] does
    not come to its report, whatever the data and the number of epochs. *)
Theorem main_needs_positive_batch_size (w : World) (model : string)
    (output_dir : option string) (n_iter batch_size : Z) (learn_rate : Q)
    (sentence_split : bool) (epochs : nat) (fs : FileSystem) (r : Report) :
  (batch_size <= 0)%Z ->
  snd (main w model output_dir n_iter batch_size learn_rate sentence_split
         epochs fs)
  <> Finished r.
Proof.
  intros Hb. unfold main.
  destruct (read_csv w) as [df |]; [| discriminate].
  destruct (train_test_split w df _ _) as [[tr rest] |]; [| discriminate].
  destruct (train_test_split w rest _ _) as [[ev dv] |]; [| discriminate].
  simpl.
  destruct load_data as [[[t1 c1] [t2 c2]] |]; [| discriminate].
  destruct (if sentence_split then _ else _) as [t1' c1'].
  destruct (batch_size =? 0)%Z eqn:Ez; [discriminate |].
  apply Z.eqb_neq in Ez.
  destruct training_loop as [s | | s] eqn:E; try discriminate.
  exfalso. revert E. apply training_loop_negative_size. lia.
Qed.

Lemma main_needs_positive_batch_size_witness :
  snd (main (sample_world even_articles) "bert" None 4 0 (2 # 100000)
         false 3 [])
  <> Finished {| textcat_labels := []; checkpoints := []; last_step := 0;
                 last_epoch := 0; table := []; saved_to := None |}.
Proof.
  apply main_needs_positive_batch_size. lia.
Defined.

(** A run whose training or evaluation partition comes out of the split
    without a row fails in [load_data], after the exports: the files are
    written all the same. *)
Theorem main_fails_on_empty_partition (w : World) (model : string)
    (output_dir : option string) (n_iter batch_size : Z) (learn_rate : Q)
    (sentence_split : bool) (epochs : nat) (fs : FileSystem)
    (df tr rest ev dv : DataFrame) :
  read_csv w = Some df ->
  train_test_split w df (4 # 10) (label_column df) = Some (tr, rest) ->
  train_test_split w rest (5 # 10) (label_column rest) = Some (ev, dv) ->
  tr = [] \/ ev = [] ->
  main w model output_dir n_iter batch_size learn_rate sentence_split
    epochs fs
  = (exported df tr ev dv fs, Failed).
Proof.
  intros E0 E1 E2 Hempty.
  pose proof (main_files w model output_dir n_iter batch_size learn_rate
                sentence_split epochs fs df tr rest ev dv E0 E1 E2) as Hf.
  rewrite <- Hf. rewrite (surjective_pairing (main _ _ _ _ _ _ _ _ _)) at 1.
  f_equal. unfold main. rewrite E0, E1, E2. cbn [snd].
  assert (Hl : load_data (preprocess_text w) tr ev (train_label_list df)
               = None).
  { unfold load_data, itertuples.
    destruct Hempty as [-> | ->]; [reflexivity |].
    destruct (_prepare_partition (preprocess_text w) tr false _);
      reflexivity. }
  now rewrite Hl.
Qed.

Lemma main_fails_on_empty_partition_witness :
  main (sample_world [("web", "t1")]) "bert" None 4 24 (2 # 100000) false 3
    []
  = (exported [("web", "t1")] [] [] [("web", "t1")] [], Failed).
Proof.
  apply (main_fails_on_empty_partition (sample_world [("web", "t1")]) "bert"
           None 4 24 (2 # 100000) false 3 [] [("web", "t1")] []
           [("web", "t1")] [] [("web", "t1")] eq_refl eq_refl eq_refl).
  now left.
Defined.

(** ** What the training loop records *)

Lemma StronglySorted_app {A} (R : A -> A -> Prop) (l1 l2 : list A) :
  StronglySorted R l1 -> StronglySorted R l2 ->
  (forall a b, In a l1 -> In b l2 -> R a b) ->
  StronglySorted R (l1 ++ l2).
Proof.
  induction 1 as [| a l1 Hl IH Ha]; intros H2 H12; simpl; [assumption |].
  constructor.
  - apply IH; [assumption |]. intros x y Hx Hy. apply H12; [now right | easy].
  - apply Forall_app. split; [assumption |].
    apply Forall_forall. intros b Hb. apply H12; [now left | assumption].
Qed.

Lemma train_batches_appends {A} (evaluate : Z -> option Scores) (epoch : Z)
    (batches : list A) :
  forall (results results' : list CheckpointResult) (step step' : Z),
    train_batches evaluate epoch batches results step
    = Some (results', step') ->
    step' = (step + len batches)%Z
    /\ exists new,
         results' = results ++ new
         /\ Forall (checkpoint_between step step' epoch (epoch + 1)) new
         /\ StronglySorted (fun a b => (cr_step a < cr_step b)%Z) new.
Proof.
  unfold len.
  induction batches as [| b batches IH];
    intros results results' step step' H;
    cbn [train_batches List.length] in H |- *.
  - injection H as <- <-. split; [lia |]. exists [].
    rewrite app_nil_r. repeat split; constructor.
  - destruct (negb (step =? 0)%Z && (step mod eval_every =? 0)%Z) eqn:E.
    + apply andb_true_iff in E. destruct E as [E1 E2].
      apply negb_true_iff, Z.eqb_neq in E1. apply Z.eqb_eq in E2.
      destruct (evaluate step) as [scores |]; [| discriminate].
      apply IH in H. destruct H as (Hs & new & Hr & Hf & Hsorted).
      split; [lia |].
      exists ((textcat_acc scores, step, epoch) :: new).
      split; [now rewrite Hr, <- app_assoc |]. split.
      * constructor.
        -- unfold checkpoint_between, cr_step, cr_epoch. simpl.
           repeat split; try assumption; lia.
        -- eapply Forall_impl; [| exact Hf].
           unfold checkpoint_between. intros c. lia.
      * constructor; [assumption |].
        eapply Forall_impl; [| exact Hf].
        unfold checkpoint_between, cr_step. simpl. intros c. lia.
    + apply IH in H. destruct H as (Hs & new & Hr & Hf & Hsorted).
      split; [lia |]. exists new. split; [assumption |].
      split; [| assumption].
      eapply Forall_impl; [| exact Hf].
      unfold checkpoint_between. intros c. lia.
Qed.

Lemma records_since_refl (s : LoopState) : records_since s s.
Proof.
  unfold records_since. split; [lia |]. split; [lia |]. exists [].
  rewrite app_nil_r. repeat split; constructor.
Qed.

Lemma records_since_trans (s s1 s2 : LoopState) :
  records_since s s1 -> records_since s1 s2 -> records_since s s2.
Proof.
  intros (A1 & A2 & new1 & A3 & A4 & A5) (B1 & B2 & new2 & B3 & B4 & B5).
  unfold records_since. split; [lia |]. split; [lia |].
  exists (new1 ++ new2). split; [now rewrite B3, A3, app_assoc |].
  assert (W1 : Forall (checkpoint_between (step s) (step s2) (epoch s)
                         (epoch s2)) new1).
  { eapply Forall_impl; [| exact A4]. unfold checkpoint_between.
    intros c. lia. }
  assert (W2 : Forall (checkpoint_between (step s) (step s2) (epoch s)
                         (epoch s2)) new2).
  { eapply Forall_impl; [| exact B4]. unfold checkpoint_between.
    intros c. lia. }
  split; [apply Forall_app; now split |].
  apply StronglySorted_app; try assumption.
  intros a b Ha Hb. rewrite Forall_forall in A4, B4.
  apply A4 in Ha. apply B4 in Hb. unfold checkpoint_between in *. lia.
Qed.

Lemma training_loop_records (shuffle : Z -> list Example -> list Example)
    (evaluate : Z -> option Scores) (batch_size : Z) (epochs : nat) :
  forall s s' : LoopState,
    training_loop shuffle evaluate batch_size epochs s = Stopped s'
    \/ training_loop shuffle evaluate batch_size epochs s = Running s' ->
    records_since s s'.
Proof.
  induction epochs as [| epochs IH]; intros s s' H; simpl in H.
  - destruct H as [H | H]; [discriminate |]. injection H as <-.
    apply records_since_refl.
  - destruct (minibatch _ batch_size) as [batches |];
      [| destruct H; discriminate].
    destruct (train_batches _ _ _ _ _) as [[r st] |] eqn:E;
      [| destruct H; discriminate].
    apply train_batches_appends in E.
    destruct E as (Hst & new & Hr & Hf & Hsorted).
    assert (Hone : records_since s
                     {| train_data := shuffle (epoch s) (train_data s);
                        results := r; epoch := epoch s + 1; step := st |}).
    { unfold records_since. cbn [step epoch results].
      unfold len in Hst. split; [lia |]. split; [lia |].
      exists new. repeat split; assumption. }
    destruct (no_improvement r st).
    + destruct H as [H | H]; [| discriminate]. now injection H as <-.
    + apply records_since_trans with (1 := Hone). now apply IH.
Qed.

(** The results of the loop only grow.  Whether the loop has stopped or is
    still running, the results it holds are those it started from followed
    by the checkpoints taken since, one at most per step, in the order of
    the steps, each at a step that is a multiple of [eval_every] and not 0;
    the step and epoch counters never go back. *)
Theorem training_loop_appends (shuffle : Z -> list Example -> list Example)
    (evaluate : Z -> option Scores) (batch_size : Z) (epochs : nat) :
  forall s s' : LoopState,
    training_loop shuffle evaluate batch_size epochs s = Stopped s'
    \/ training_loop shuffle evaluate batch_size epochs s = Running s' ->
    records_since s s'.
Proof.
  intros s s' [H | H].
  - apply (training_loop_records shuffle evaluate batch_size epochs).
    now left.
  - apply (training_loop_records shuffle evaluate batch_size epochs).
    now right.
Qed.

Lemma training_loop_appends_witness :
  records_since (initial (some_examples 250))
    {| train_data := some_examples 250;
       results := [(5 # 10, 100, 0); (5 # 10, 200, 0)]%Z;
       epoch := 1; step := 250 |}.
Proof.
  apply (training_loop_appends keep_order (stream_evaluate peak_then_flat) 1
           1 (initial (some_examples 250))).
  right. vm_compute. reflexivity.
Defined.

(** The grace period.  A loop started without results does not stop before
    step 400: when it stops, the best checkpoint lies at least
    [patience * eval_every] steps back, and no checkpoint is taken before
    step [eval_every]. *)
Theorem training_loop_grace (shuffle : Z -> list Example -> list Example)
    (evaluate : Z -> option Scores) (batch_size : Z) (epochs : nat)
    (examples : list Example) (s' : LoopState) :
  training_loop shuffle evaluate batch_size epochs (initial examples)
  = Stopped s' ->
  exists best,
    py_max (results s') = Some best
    /\ In best (results s')
    /\ (eval_every <= cr_step best)%Z
    /\ (cr_step best + patience * eval_every <= step s')%Z
    /\ (400 <= step s')%Z.
Proof.
  intros H.
  pose proof (training_loop_stopped _ _ _ _ _ _ H) as Hstop.
  pose proof (training_loop_records _ _ _ _ _ _ (or_introl H))
    as (_ & _ & new & Hr & Hf & _).
  cbn [initial results step epoch app] in Hr, Hf.
  unfold no_improvement in Hstop.
  destruct (results s') as [| r rs] eqn:Er; [discriminate |].
  destruct (py_max_spec (r :: rs)) as (best & Hb & Hin & _); [discriminate |].
  rewrite Hb in Hstop. exists best. split; [exact Hb |].
  split; [assumption |].
  rewrite Hr in Hin. rewrite Forall_forall in Hf. apply Hf in Hin.
  unfold checkpoint_between, eval_every in Hin.
  apply Z.leb_le in Hstop. unfold patience, eval_every in *.
  assert (H100 : (100 <= cr_step best)%Z)
    by (Z.to_euclidean_division_equations; lia).
  assert (H300 : (cr_step best + 3 * 100 <= step s')%Z)
    by (Z.to_euclidean_division_equations; lia).
  repeat split; lia.
Qed.

Lemma training_loop_grace_witness :
  exists best,
    py_max [(5 # 10, 100, 0); (5 # 10, 200, 0); (9 # 10, 300, 1);
            (8 # 10, 400, 1); (8 # 10, 500, 2); (8 # 10, 600, 2);
            (8 # 10, 700, 2)]%Z = Some best
    /\ In best [(5 # 10, 100, 0); (5 # 10, 200, 0); (9 # 10, 300, 1);
                (8 # 10, 400, 1); (8 # 10, 500, 2); (8 # 10, 600, 2);
                (8 # 10, 700, 2)]%Z
    /\ (eval_every <= cr_step best)%Z
    /\ (cr_step best + patience * eval_every <= 750)%Z
    /\ (400 <= 750)%Z.
Proof.
  apply (training_loop_grace keep_order (stream_evaluate peak_then_flat) 1 3
           (some_examples 250)
           {| train_data := some_examples 250;
              results := [(5 # 10, 100, 0); (5 # 10, 200, 0);
                          (9 # 10, 300, 1); (8 # 10, 400, 1);
                          (8 # 10, 500, 2); (8 # 10, 600, 2);
                          (8 # 10, 700, 2)]%Z;
              epoch := 3; step := 750 |}).
  vm_compute. reflexivity.
Defined.

(** Without training examples the loop never ends: an epoch has no batch,
    the step counter stays at 0, no checkpoint is taken, and the test after
    the epoch is not made. *)
Theorem training_loop_without_examples
    (shuffle : Z -> list Example -> list Example)
    (evaluate : Z -> option Scores) (batch_size : Z) (epochs : nat) :
  (forall e, shuffle e [] = []) ->
  (0 <= batch_size)%Z ->
  training_loop shuffle evaluate batch_size epochs (initial [])
  = Running {| train_data := []; results := [];
               epoch := Z.of_nat epochs; step := 0 |}.
Proof.
  intros Hsh Hb.
  assert (H : forall n e,
             training_loop shuffle evaluate batch_size n
               {| train_data := []; results := []; epoch := e; step := 0 |}
             = Running {| train_data := []; results := [];
                          epoch := e + Z.of_nat n; step := 0 |}).
  { induction n as [| n IH]; intros e; cbn [training_loop].
    - now rewrite Z.add_0_r.
    - cbn [train_data epoch results step]. rewrite Hsh. unfold minibatch.
      replace (batch_size <? 0)%Z with false
        by (symmetry; apply Z.ltb_ge; lia).
      cbn [List.length slices train_batches no_improvement].
      rewrite IH. do 2 f_equal. lia. }
  apply (H epochs 0%Z).
Qed.

Lemma training_loop_without_examples_witness :
  training_loop keep_order (stream_evaluate plateau) 24 1000 (initial [])
  = Running {| train_data := []; results := [];
               epoch := Z.of_nat 1000; step := 0 |}.
Proof.
  apply training_loop_without_examples.
  - reflexivity.
  - lia.
Defined.

Lemma minibatch_same_length {A} (l examples : list A) (batch_size : Z)
    (batches : list (list A)) :
  List.length l = List.length examples ->
  minibatch examples batch_size = Some batches ->
  exists batches',
    minibatch l batch_size = Some batches' /\ len batches' = len batches.
Proof.
  intros Hl Hb. unfold minibatch in *.
  destruct (batch_size <? 0)%Z; [discriminate |].
  injection Hb as <-. eexists. split; [reflexivity |].
  unfold len. f_equal. rewrite Hl. now apply slices_length.
Qed.

Lemma training_loop_counts_from
    (shuffle : Z -> list Example -> list Example)
    (evaluate : Z -> option Scores) (batch_size : Z)
    (examples : list Example) (batches : list (list Example)) :
  (forall e l, List.length (shuffle e l) = List.length l) ->
  minibatch examples batch_size = Some batches ->
  forall (epochs : nat) (s s' : LoopState),
    List.length (train_data s) = List.length examples ->
    training_loop shuffle evaluate batch_size epochs s = Stopped s'
    \/ training_loop shuffle evaluate batch_size epochs s = Running s' ->
    exists k : nat,
      (k <= epochs)%nat
      /\ step s' = (step s + Z.of_nat k * len batches)%Z
      /\ epoch s' = (epoch s + Z.of_nat k)%Z
      /\ (training_loop shuffle evaluate batch_size epochs s = Running s' ->
          k = epochs).
Proof.
  intros Hsh Hmb.
  induction epochs as [| epochs IH]; intros s s' Hlen H.
  - simpl in H. destruct H as [H | H]; [discriminate |]. injection H as <-.
    exists 0%nat. repeat split; lia.
  - destruct (minibatch_same_length (shuffle (epoch s) (train_data s))
                examples batch_size batches
                (eq_trans (Hsh _ _) Hlen) Hmb) as (batches' & Hb & Hnb).
    destruct (train_batches evaluate (epoch s) batches' (results s) (step s))
      as [[r st] |] eqn:E;
      [| exfalso; cbn [training_loop] in H; rewrite Hb, E in H;
         destruct H; discriminate].
    set (s1 := {| train_data := shuffle (epoch s) (train_data s);
                  results := r; epoch := epoch s + 1; step := st |}).
    assert (Heq : training_loop shuffle evaluate batch_size (S epochs) s
                  = if no_improvement r st then Stopped s1
                    else training_loop shuffle evaluate batch_size epochs s1).
    { cbn [training_loop]. now rewrite Hb, E. }
    rewrite Heq in H.
    apply train_batches_appends in E. destruct E as (Hst & _).
    rewrite Hnb in Hst.
    destruct (no_improvement r st) eqn:En.
    + destruct H as [H | H]; [| discriminate]. injection H as <-.
      exists 1%nat. cbn [s1 step epoch].
      split; [lia |]. split; [lia |]. split; [lia |].
      rewrite Heq. discriminate.
    + assert (Hlen1 : List.length (train_data s1) = List.length examples)
        by (cbn [s1 train_data]; now rewrite Hsh).
      destruct (IH s1 s' Hlen1 H) as (k & Hk & Hstep & Hepoch & Hrun).
      cbn [s1 step epoch] in Hstep, Hepoch.
      exists (S k). split; [lia |]. split; [lia |]. split; [lia |].
      rewrite Heq. intros Hr. f_equal. now apply Hrun.
Qed.

(** The step counter moves by whole epochs.  With a shuffle that keeps the
    length of the list, the loop, stopped or still running, has stepped
    through the batches of the examples once per epoch: the step counter is
    the epoch counter times the number of batches, and the epoch counter is
    at most the number of epochs run, and equal to it while the loop is
    running. *)
Theorem training_loop_counts (shuffle : Z -> list Example -> list Example)
    (evaluate : Z -> option Scores) (batch_size : Z)
    (examples : list Example) (batches : list (list Example))
    (epochs : nat) (s' : LoopState) :
  (forall e l, List.length (shuffle e l) = List.length l) ->
  minibatch examples batch_size = Some batches ->
  training_loop shuffle evaluate batch_size epochs (initial examples)
  = Stopped s'
  \/ training_loop shuffle evaluate batch_size epochs (initial examples)
     = Running s' ->
  step s' = (epoch s' * len batches)%Z
  /\ (0 <= epoch s' <= Z.of_nat epochs)%Z
  /\ (training_loop shuffle evaluate batch_size epochs (initial examples)
      = Running s' -> epoch s' = Z.of_nat epochs).
Proof.
  intros Hsh Hmb H.
  destruct (training_loop_counts_from shuffle evaluate batch_size examples
              batches Hsh Hmb epochs (initial examples) s' eq_refl H)
    as (k & Hk & Hstep & Hepoch & Hrun).
  cbn [initial step epoch] in Hstep, Hepoch.
  repeat split; try lia.
  intros Hr. rewrite (Hrun Hr) in Hepoch. lia.
Qed.

Lemma training_loop_counts_witness :
  (750 = 3 * len (slices 250 1 (some_examples 250)))%Z
  /\ (0 <= 3 <= Z.of_nat 3)%Z.
Proof.
  assert (H : training_loop keep_order (stream_evaluate peak_then_flat) 1 3
                (initial (some_examples 250))
              = Stopped
                  {| train_data := some_examples 250;
                     results := [(5 # 10, 100, 0); (5 # 10, 200, 0);
                                 (9 # 10, 300, 1); (8 # 10, 400, 1);
                                 (8 # 10, 500, 2); (8 # 10, 600, 2);
                                 (8 # 10, 700, 2)]%Z;
                     epoch := 3; step := 750 |})
    by (vm_compute; reflexivity).
  destruct (training_loop_counts keep_order
              (stream_evaluate peak_then_flat) 1 (some_examples 250)
              (slices 250 1 (some_examples 250)) 3 _
              (fun e l => eq_refl) eq_refl (or_introl H))
    as (H1 & H2 & _).
  split; assumption.
Defined.

(** ** [make_sentence_examples] *)

Lemma sentences_of_text (c : Cats) (l : list Text) :
  forall acc : list Text * list Cats,
    fold_left (fun acc sent => (fst acc ++ [sent], snd acc ++ [c])) l acc
    = (fst acc ++ l, snd acc ++ map (fun _ => c) l).
Proof.
  induction l as [| sent l IH]; intros acc; simpl.
  - rewrite !app_nil_r. now destruct acc.
  - rewrite IH. simpl. now rewrite <- !app_assoc.
Qed.

Lemma sentences_of_texts (sents : Text -> list Text)
    (pairs : list (Text * Cats)) :
  forall acc : list Text * list Cats,
    fold_left
      (fun acc tc =>
         fold_left (fun acc sent => (fst acc ++ [sent], snd acc ++ [snd tc]))
           (sents (fst tc)) acc)
      pairs acc
    = (fst acc
       ++ map fst (flat_map (fun tc => map (fun sent => (sent, snd tc))
                                         (sents (fst tc))) pairs),
       snd acc
       ++ map snd (flat_map (fun tc => map (fun sent => (sent, snd tc))
                                         (sents (fst tc))) pairs)).
Proof.
  induction pairs as [| tc pairs IH]; intros acc; cbn [fold_left flat_map].
  - simpl. rewrite !app_nil_r. now destruct acc.
  - rewrite sentences_of_text, IH. cbn [fst snd].
    rewrite !map_app, !map_map. cbn [fst snd].
    rewrite map_id, <- !app_assoc. reflexivity.
Qed.

(** [make_sentence_examples] gives every sentence of every text the
    distribution of the text it comes from, texts in order and sentences in
    order: the two lists it returns are the two columns of the list of
    (sentence, distribution) pairs, and so have the same length.  A text in
    which the sentencizer finds no sentence drops out, and texts beyond the
    last distribution (or distributions beyond the last text) are not
    used. *)
Theorem make_sentence_examples_pairs (sents : Text -> list Text)
    (texts : list Text) (labels : list Cats) :
  let out := make_sentence_examples sents texts labels in
  fst out = map fst (sentence_pairs sents texts labels)
  /\ snd out = map snd (sentence_pairs sents texts labels)
  /\ combine (fst out) (snd out) = sentence_pairs sents texts labels
  /\ List.length (fst out) = List.length (snd out).
Proof.
  cbv zeta. unfold make_sentence_examples, sentence_pairs.
  rewrite sentences_of_texts. cbn [fst snd app].
  set (pairs := flat_map _ _).
  assert (Hc : forall l : list (Text * Cats),
             combine (map fst l) (map snd l) = l).
  { induction l as [| [a b] l IHl]; simpl; [reflexivity | now rewrite IHl]. }
  repeat split; [apply Hc | now rewrite !length_map].
Qed.

(** ** The report and the stopping test *)

Lemma tuple_ge_antisym (a b : CheckpointResult) :
  tuple_ge a b -> tuple_ge b a ->
  (cr_score a == cr_score b)%Q
  /\ cr_step a = cr_step b /\ cr_epoch a = cr_epoch b.
Proof.
  unfold tuple_ge. order_cases a b; order_cases b a; order_close.
Qed.

(** The first row of the table is the checkpoint that the stopping test
    takes as the best: the maximum [max(results)] and the head of
    [sorted(results, reverse=True)] have the same accuracy, step and
    epoch. *)
Theorem report_first_row_is_best (results : list CheckpointResult) :
  results <> [] ->
  exists best top,
    py_max results = Some best
    /\ hd_error (report results) = Some (row top)
    /\ In top results
    /\ (cr_score top == cr_score best)%Q
    /\ cr_step top = cr_step best
    /\ cr_epoch top = cr_epoch best.
Proof.
  intros Hne.
  destruct (py_max_spec results Hne) as (best & Hb & Hin & Hmax).
  pose proof (sorted_reverse_perm results) as Hp.
  pose proof (sorted_reverse_sorted results) as Hs.
  unfold report.
  destruct (sorted_reverse results) as [| top rest] eqn:E.
  - apply Permutation_length in Hp. destruct results; [contradiction |].
    discriminate.
  - exists best, top. split; [assumption |]. split; [reflexivity |].
    assert (Htop : In top results).
    { apply (Permutation_in top (Permutation_sym Hp)). now left. }
    split; [assumption |].
    apply tuple_ge_antisym.
    + apply (Permutation_in best Hp) in Hin.
      destruct Hin as [<- | Hin]; [apply tuple_ge_refl |].
      inversion Hs as [| x l _ Hall]; subst.
      rewrite Forall_forall in Hall. now apply Hall.
    + now apply Hmax.
Qed.

Lemma report_first_row_is_best_witness :
  exists best top,
    py_max fifteen_results = Some best
    /\ hd_error (report fifteen_results) = Some (row top)
    /\ In top fifteen_results
    /\ (cr_score top == cr_score best)%Q
    /\ cr_step top = cr_step best
    /\ cr_epoch top = cr_epoch best.
Proof.
  apply report_first_row_is_best. discriminate.
Defined.

(** ** Failing evaluations and surplus distributions *)






Example evaluation_failure_raises :
  training_loop keep_order fails_at_200 1 3 (initial (some_examples 100))
  = Raised.
Proof. vm_compute. reflexivity. Qed.

Lemma count_correct_surplus (nlp_cats : Text -> Cats)
    (cats extra : list Cats) (texts : list Text) :
  forall (i : nat) (correct : Z),
    (i + List.length texts <= List.length cats)%nat ->
    count_correct nlp_cats (cats ++ extra) i texts correct
    = count_correct nlp_cats cats i texts correct.
Proof.
  induction texts as [| text texts IH]; intros i correct H;
    cbn [count_correct List.length] in *; [reflexivity |].
  rewrite nth_error_app1 by lia.
  destruct (nth_error cats i) as [c |]; [| reflexivity].
  destruct (find_max_prob_cat c) as [tl |]; [| reflexivity].
  destruct (find_max_prob_cat (nlp_cats text)) as [pl |]; [| reflexivity].
  apply IH. lia.
Qed.

(** True distributions beyond the last text do not change the scores: the
    evaluation does not check that the two sequences have the same length. *)
Theorem evaluate_multiclass_surplus (nlp_cats : Text -> Cats)
    (texts : list Text) (cats extra : list Cats) :
  (List.length texts <= List.length cats)%nat ->
  evaluate_multiclass nlp_cats texts (cats ++ extra)
  = evaluate_multiclass nlp_cats texts cats.
Proof.
  intros H. unfold evaluate_multiclass.
  now rewrite count_correct_surplus by (simpl; lia).
Qed.

Lemma evaluate_multiclass_surplus_witness :
  evaluate_multiclass (fun _ => [("web", 1 # 4); ("sport", 3 # 4)])
    ["goal"] ([ [("web", 0); ("sport", 1)] ] ++ [ []; [("web", 1)] ])
  = evaluate_multiclass (fun _ => [("web", 1 # 4); ("sport", 3 # 4)])
      ["goal"] [ [("web", 0); ("sport", 1)] ].
Proof.
  apply evaluate_multiclass_surplus. simpl. lia.
Defined.
